(** * dw_bot_clone: update queue and dual-backend storage layer

  A shallow embedding of
    - [src/services/queues/priceQueue.js]  (class [PriceQueue]),
    - the local store                      (class [MemoryStorage]),
    - the remote store adapter             (class [SupabaseService]),
    - [src/services/storage.js]            (class [StorageService]),
  followed by the properties the specification states about them.

  Conventions.  Instants and durations are integers in milliseconds
  ([Date.now()]); an ISO timestamp produced by [new Date().toISOString()]
  and read back by [new Date(s)] is the same millisecond count, so
  [updated_at] fields are kept as [Z].  A JavaScript [Map] with string keys
  is a [gmap string _]; an array is a [list].  An [async] method is run to
  completion as a state transformer; where an interleaving matters (the
  synchronization flush) the method is split at its suspension points. *)

From Stdlib Require Import ZArith QArith.
From stdpp Require Import base option list gmap strings pretty sorting.

Set Warnings "-register-all,-clear-no-such-hyp".

Local Open Scope Z_scope.

(** ** JavaScript values, as far as the validators look at them *)

Module Js.

Inductive Number :=
| NaN
| Finite (q : Q)
| Infinity (negative : bool).

Inductive Val :=
| Undefined
| Null
| Bool (b : bool)
| Num (n : Number)
| Str (s : string)
| Obj (props : list (string * Val)).

(** [typeof v] *)
Definition typeof (v : Val) : string :=
  match v with
  | Undefined => "undefined"
  | Null => "object"
  | Bool _ => "boolean"
  | Num _ => "number"
  | Str _ => "string"
  | Obj _ => "object"
  end.

(** ToBoolean: [undefined], [null], [false], [NaN], [0], [-0] and the empty
    string are falsy, everything else is truthy. *)
Definition truthy (v : Val) : bool :=
  match v with
  | Undefined | Null => false
  | Bool b => b
  | Num NaN => false
  | Num (Finite q) => negb (Qnum q =? 0)
  | Num (Infinity _) => true
  | Str s => negb (String.eqb s "")
  | Obj _ => true
  end.

Fixpoint assoc (k : string) (props : list (string * Val)) : Val :=
  match props with
  | [] => Undefined
  | (k', v) :: rest => if String.eqb k k' then v else assoc k rest
  end.

(** [v.k] for a value that is neither [undefined] nor [null]: a primitive
    has none of the properties read here, so the access gives [undefined]. *)
Definition get (v : Val) (k : string) : Val :=
  match v with
  | Obj props => assoc k props
  | _ => Undefined
  end.

Definition is_undefined (v : Val) : bool :=
  match v with Undefined => true | _ => false end.

Definition typeof_nullish (v : Val) : string :=
  match v with Null => "null" | _ => "undefined" end.

Definition nullish (v : Val) : bool :=
  match v with Undefined | Null => true | _ => false end.

(** [new Error(msg)], as far as it is looked at: its [message]. *)
Definition new_Error (msg : string) : Val := Obj [("message", Str msg)].

(** The [TypeError] of a property read on [null] or [undefined]. *)
Definition TypeError_reading (v : Val) (prop : string) : Val :=
  new_Error ("Cannot read properties of " +:+ typeof_nullish v
             +:+ " (reading '" +:+ prop +:+ "')").

(** [v.message]: [None] when the read throws. *)
Definition read_message (v : Val) : option Val :=
  if nullish v then None else Some (get v "message").

(** How a call ends: it returns a value or throws one, in both cases leaving
    a state behind. *)
Inductive Completion (S A : Type) :=
| Returned (s : S) (a : A)
| Threw (s : S) (e : Val).
Arguments Returned {S A} s a.
Arguments Threw {S A} s e.

Definition final_state {S A} (c : Completion S A) : S :=
  match c with Returned s _ => s | Threw s _ => s end.

(** [x || d] on an optional numeric option: a missing or zero value gives
    the default. *)
Definition or_default (x : option Z) (d : Z) : Z :=
  match x with
  | Some v => if v =? 0 then d else v
  | None => d
  end.

(** [String(v)] / [v.toString()] as far as it does not depend on how a
    number is printed; the printing of numbers is taken as [show]. *)
Definition toString (show : Number -> string) (v : Val) : string :=
  match v with
  | Undefined => "undefined"
  | Null => "null"
  | Bool true => "true"
  | Bool false => "false"
  | Num n => show n
  | Str s => s
  | Obj _ => "[object Object]"
  end.

End Js.

(** ** src/services/queues/priceQueue.js *)

Module PriceQueue.

Record Options := {
  opt_maxQueueSize : option Z;
  opt_processingTimeout : option Z;
  opt_handlerTimeout : option Z;
  opt_maxRetries : option Z
}.

(** A queue item; [lastError] is [None] until a retry sets the property. *)
Record Item := {
  id : string;
  data : Js.Val;
  addedAt : Z;
  retries : Z;
  lastError : option Js.Val
}.

(** [{ ...item, finalError, failedAt }] *)
Record FailedItem := {
  item : Item;
  finalError : Js.Val;
  failedAt : Z
}.

Record Stats := {
  processed : Z;
  failed : Z;
  retried : Z;
  timeouts : Z
}.

(** What one call [handler({ data })] does, seen from the call instant:
    it throws a value before returning a promise, or its promise fulfils or
    rejects after [d] milliseconds, or never settles. *)
Inductive Outcome :=
| ThrowsSync (thrown : Js.Val)
| Resolves (d : Z)
| Rejects (d : Z)
| Never.

(** A registered handler; the first argument is the instant of the call. *)
Definition Handler := Z -> Js.Val -> Outcome.

Record State := {
  maxQueueSize : Z;
  processingTimeout : Z;
  handlerTimeout : Z;
  maxRetries : Z;
  handlers : list Handler;
  processing : bool;
  queue : list Item;
  failedItems : gmap string FailedItem;
  stats : Stats
}.

Definition set_processing (b : bool) (st : State) : State :=
  {| maxQueueSize := maxQueueSize st; processingTimeout := processingTimeout st;
     handlerTimeout := handlerTimeout st; maxRetries := maxRetries st;
     handlers := handlers st; processing := b; queue := queue st;
     failedItems := failedItems st; stats := stats st |}.

Definition set_queue (q : list Item) (st : State) : State :=
  {| maxQueueSize := maxQueueSize st; processingTimeout := processingTimeout st;
     handlerTimeout := handlerTimeout st; maxRetries := maxRetries st;
     handlers := handlers st; processing := processing st; queue := q;
     failedItems := failedItems st; stats := stats st |}.

Definition set_failedItems (m : gmap string FailedItem) (st : State) : State :=
  {| maxQueueSize := maxQueueSize st; processingTimeout := processingTimeout st;
     handlerTimeout := handlerTimeout st; maxRetries := maxRetries st;
     handlers := handlers st; processing := processing st; queue := queue st;
     failedItems := m; stats := stats st |}.

Definition set_stats (s : Stats) (st : State) : State :=
  {| maxQueueSize := maxQueueSize st; processingTimeout := processingTimeout st;
     handlerTimeout := handlerTimeout st; maxRetries := maxRetries st;
     handlers := handlers st; processing := processing st; queue := queue st;
     failedItems := failedItems st; stats := s |}.

Definition incr_processed (s : Stats) : Stats :=
  {| processed := processed s + 1; failed := failed s;
     retried := retried s; timeouts := timeouts s |}.
Definition incr_failed (s : Stats) : Stats :=
  {| processed := processed s; failed := failed s + 1;
     retried := retried s; timeouts := timeouts s |}.
Definition incr_retried (s : Stats) : Stats :=
  {| processed := processed s; failed := failed s;
     retried := retried s + 1; timeouts := timeouts s |}.
Definition incr_timeouts (s : Stats) : Stats :=
  {| processed := processed s; failed := failed s;
     retried := retried s; timeouts := timeouts s + 1 |}.

(** [constructor(options = {})]; the handler set starts empty, [hs] are the
    handlers registered afterwards through [process]. *)
Definition constructor (o : Options) (hs : list Handler) : State :=
  {| maxQueueSize := Js.or_default (opt_maxQueueSize o) 1000;
     processingTimeout := Js.or_default (opt_processingTimeout o) 30000;
     handlerTimeout := Js.or_default (opt_handlerTimeout o) 5000;
     maxRetries := Js.or_default (opt_maxRetries o) 3;
     handlers := hs;
     processing := false;
     queue := [];
     failedItems := ∅;
     stats := {| processed := 0; failed := 0; retried := 0; timeouts := 0 |} |}.

(** The instance the module exports. *)
Definition exported (hs : list Handler) : State :=
  constructor {| opt_maxQueueSize := Some 1000; opt_processingTimeout := Some 30000;
                 opt_handlerTimeout := Some 5000; opt_maxRetries := Some 3 |} hs.

(** [generateItemId]: the instant, a dash, and a random suffix [rnd]. *)
Definition generateItemId (now : Z) (rnd : string) : string :=
  pretty now +:+ "-" +:+ rnd.

Definition validateData (d : Js.Val) : bool :=
  if negb (Js.truthy d) || negb (String.eqb (Js.typeof d) "object")
  then false else true.

(** One element of the [allSettled] array: the handler's promise raced
    against the [handlerTimeout] timer.  [(true, d)] is fulfilled after [d]
    milliseconds, [(false, d)] rejected after [d].  [handler({ data })] is
    called, and whatever timer it sets is armed, before the timeout promise
    is created and its timer armed; timers that expire together fire in the
    order they were armed, so the handler wins the race when it settles no
    later than the timer fires.  A delay below zero fires as one of zero. *)
Definition settle (T : Z) (o : Outcome) : bool * Z :=
  match o with
  | Resolves d => if Z.max d 0 <=? Z.max T 0 then (true, Z.max d 0) else (false, Z.max T 0)
  | Rejects d => if Z.max d 0 <=? Z.max T 0 then (false, Z.max d 0) else (false, Z.max T 0)
  | Never | ThrowsSync _ => (false, Z.max T 0)
  end.

Definition first_sync_throw (os : list Outcome) : option Js.Val :=
  head (omap (fun o => match o with ThrowsSync v => Some v | _ => None end) os).

(** [processItem]: [inl d] — every handler fulfilled, after [d] ms;
    [inr (e, d)] — the method rejects with [e] after [d] ms.  A handler that
    throws while the array of races is being built makes the method reject
    at once with that error; otherwise [allSettled] waits for the slowest
    race and the method rejects when some race was rejected. *)
Definition processItem (st : State) (now : Z) (it : Item) : Z + Js.Val * Z :=
  let outcomes := map (fun h : Handler => h now (data it)) (handlers st) in
  match first_sync_throw outcomes with
  | Some v => inr (v, 0)
  | None =>
      let results := map (settle (handlerTimeout st)) outcomes in
      let d := foldr Z.max 0 (map snd results) in
      let failed := filter (fun r => fst r = false) results in
      if 0 <? Z.of_nat (length failed)
      then inr (Js.new_Error (pretty (length failed) +:+ " handlers failed"), d)
      else inl d
  end.

(** [handleFailedItem(item, error)].  [error.message] is read after the
    counters were touched and before the item is put anywhere; when [error]
    is [null] or [undefined] that read throws and the method rejects. *)
Definition handleFailedItem (now : Z) (it : Item) (error : Js.Val) (st : State)
  : Js.Completion State unit :=
  let st := set_stats (incr_failed (stats st)) st in
  if retries it <? maxRetries st then
    match Js.read_message error with
    | None => Js.Threw st (Js.TypeError_reading error "message")
    | Some m =>
        let it' := {| id := id it; data := data it; addedAt := addedAt it;
                      retries := retries it + 1; lastError := Some m |} in
        let st := set_stats (incr_retried (stats st)) st in
        Js.Returned (set_queue (queue st ++ [it']) st) ()
    end
  else
    match Js.read_message error with
    | None => Js.Threw st (Js.TypeError_reading error "message")
    | Some m =>
        Js.Returned
          (set_failedItems
             (<[id it := {| item := it; finalError := m; failedAt := now |}]>
                (failedItems st)) st) ()
    end.

(** How the [while] loop of [processQueue] was left: the queue ran empty,
    the global timeout fired, an exception left the [try] block, or the
    fuel of the embedding ran out. *)
Inductive LoopExit :=
| QueueEmpty
| GlobalTimeout
| Aborted (e : Js.Val)
| OutOfFuel.

(** The [while (this.queue.length > 0)] loop; [start] is
    [processingStartTime], [now] the clock, advanced by every awaited
    [processItem]. *)
Fixpoint drain (fuel : nat) (start now : Z) (st : State) : State * Z * LoopExit :=
  match queue st with
  | [] => (st, now, QueueEmpty)
  | it :: rest =>
      if processingTimeout st <? now - start then
        (set_stats (incr_timeouts (stats st)) st, now, GlobalTimeout)
      else
        match fuel with
        | O => (st, now, OutOfFuel)
        | S fuel' =>
            let st1 := set_queue rest st in
            match processItem st1 now it with
            | inl d =>
                drain fuel' start (now + d) (set_stats (incr_processed (stats st1)) st1)
            | inr (e, d) =>
                match handleFailedItem (now + d) it e st1 with
                | Js.Returned st2 _ => drain fuel' start (now + d) st2
                | Js.Threw st2 e' => (st2, now + d, Aborted e')
                end
            end
        end
  end.

(** Attempts an item still has before it leaves the queue for good. *)
Definition attempts_left (maxR : Z) (it : Item) : nat :=
  S (Z.to_nat (maxR - retries it)).

Definition budget (maxR : Z) (q : list Item) : nat :=
  foldr (fun it n => attempts_left maxR it + n)%nat 0%nat q.

(** [processQueue], run without interleaved [add]s; returns the state, the
    clock when the method completes and, when the re-entrancy guard let the
    call through, how the loop was left.  The [finally] block runs on every
    way out of the [try], also when an exception leaves it. *)
Definition processQueue_exit (now : Z) (st : State) : State * Z * option LoopExit :=
  if processing st then (st, now, None)
  else
    let st := set_processing true st in
    let '(st, now', ex) := drain (budget (maxRetries st) (queue st)) now now st in
    (set_processing false st, now', Some ex).

(** [processQueue()] as a call: it rejects when an exception left the loop. *)
Definition processQueue (now : Z) (st : State) : Js.Completion State unit :=
  match processQueue_exit now st with
  | (st', _, Some (Aborted e)) => Js.Threw st' e
  | (st', _, _) => Js.Returned st' ()
  end.

(** [add(data)] *)
Definition add (now : Z) (rnd : string) (d : Js.Val) (st : State)
  : Js.Completion State unit :=
  if maxQueueSize st <=? Z.of_nat (length (queue st)) then
    Js.Threw st (Js.new_Error ("Queue full: maximum " +:+ pretty (maxQueueSize st) +:+ " items"))
  else if negb (validateData d) then
    Js.Threw st (Js.new_Error "Invalid data for queue")
  else
    let it := {| id := generateItemId now rnd; data := d; addedAt := now;
                 retries := 0; lastError := None |} in
    let st := set_queue (queue st ++ [it]) st in
    if negb (processing st)
    then processQueue now st
    else Js.Returned st ().

(** [cleanupFailedItems] *)
Definition cleanupFailedItems (now : Z) (st : State) : State :=
  let oneHourAgo := now - 60 * 60 * 1000 in
  set_failedItems (filter (fun kv => ¬ (failedAt (snd kv) < oneHourAgo)) (failedItems st)) st.

End PriceQueue.

(** ** The payloads of a price write *)

Module Payload.

(** The [token] argument, as the stores read it.  [poolAddress] is the key of
    every price map. *)
Record Token := {
  address : Js.Val;
  poolAddress : string;
  ticker : Js.Val;
  name : Js.Val
}.

(** The [price] argument; also what a price read gives back. *)
Record Price := {
  price : Js.Val;
  marketCap : Js.Val;
  liquidity : Js.Val;
  volume24h : Js.Val;
  dexId : Js.Val
}.

(** [{ price, updated_at }], one point of a history series. *)
Record HistoryPoint := {
  h_price : Js.Val;
  h_updated_at : Z
}.

(** The properties the stores read off a [price] object. *)
Definition as_price (v : Js.Val) : Price :=
  {| price := Js.get v "price"; marketCap := Js.get v "marketCap";
     liquidity := Js.get v "liquidity"; volume24h := Js.get v "volume24h";
     dexId := Js.get v "dexId" |}.

(** The properties the stores read off a [token] object; defined when
    [poolAddress] is a string, which the facade checks before any store sees
    the object. *)
Definition as_token (v : Js.Val) : option Token :=
  match Js.get v "poolAddress" with
  | Js.Str p => Some {| address := Js.get v "address"; poolAddress := p;
                        ticker := Js.get v "ticker"; name := Js.get v "name" |}
  | _ => None
  end.

End Payload.

(** ** The local store: class [MemoryStorage]

    The class body declares [saveTokenPrice], [getTokenPrice],
    [getPriceHistory], [clearHistory], [updateConfig] and [getConfig] twice;
    the later declaration of a method is the one an instance has, and that is
    the one embedded here.  Writing the files ([saveToFiles]) catches its own
    errors and changes nothing in memory. *)

Module MemoryStorage.

Record PriceEntry := {
  token : Payload.Token;
  price : Payload.Price;
  updated_at : Z
}.

Record State := {
  prices : gmap string PriceEntry;
  config : gmap string Js.Val;
  history : gmap string (list Payload.HistoryPoint)
}.

Definition constructor : State :=
  {| prices := ∅;
     config := <["sort_criteria" := Js.Str "mc"]> (<["update_interval" := Js.Str "30"]> ∅);
     history := ∅ |}.

(** [history.unshift(e); if (history.length > 24) history.length = 24] *)
Definition push_front (e : Payload.HistoryPoint) (h : list Payload.HistoryPoint)
  : list Payload.HistoryPoint :=
  let h := e :: h in
  if (24 <? length h)%nat then take 24 h else h.

(** [saveTokenPrice(token, price)]; both timestamps are taken in one
    synchronous stretch and are the instant [now].  Returns [true]. *)
Definition saveTokenPrice (now : Z) (tok : Payload.Token) (p : Payload.Price) (st : State)
  : State :=
  let key := Payload.poolAddress tok in
  let prices' := <[key := {| token := tok; price := p; updated_at := now |}]> (prices st) in
  let old := default [] (history st !! key) in
  let entry := {| Payload.h_price := Payload.price p; Payload.h_updated_at := now |} in
  {| prices := prices'; config := config st;
     history := <[key := push_front entry old]> (history st) |}.

(** [getTokenPrice(poolAddress)] *)
Definition getTokenPrice (now : Z) (pool : string) (st : State) : option Payload.Price :=
  match prices st !! pool with
  | None => None
  | Some d =>
      let thirtySecondsAgo := now - 30 * 1000 in
      if updated_at d <? thirtySecondsAgo then None else Some (price d)
  end.

(** [getPriceHistory(poolAddress)] *)
Definition getPriceHistory (pool : string) (st : State) : list Payload.HistoryPoint :=
  default [] (history st !! pool).

(** [clearHistory(poolAddress)]; returns [true]. *)
Definition clearHistory (pool : string) (st : State) : State :=
  {| prices := prices st; config := config st; history := delete pool (history st) |}.

(** [updateConfig(key, value)]; returns [true]. *)
Definition updateConfig (key : string) (value : Js.Val) (st : State) : State :=
  {| prices := prices st; config := <[key := value]> (config st); history := history st |}.

(** [getConfig(key)]: [value ? { key, value } : null] *)
Definition getConfig (key : string) (st : State) : option (string * Js.Val) :=
  match config st !! key with
  | Some v => if Js.truthy v then Some (key, v) else None
  | None => None
  end.

End MemoryStorage.

(** ** The remote store adapter: class [SupabaseService]

    The database behind the client is kept as the rows of its two tables.
    [reachable] says whether a request gets through; a request that does not
    comes back with [error] set.  [token_prices] has a serial primary key, so
    an [upsert] without a key adds a row.  A text column is represented by
    the value whose [toString()] was sent. *)

Module Supabase.

Record PriceRow := {
  token_address : Js.Val;
  pool_address : string;
  ticker : Js.Val;
  name : Js.Val;
  price : Js.Val;
  market_cap : Js.Val;
  liquidity : Js.Val;
  volume_24h : Js.Val;
  dex_id : Js.Val;
  updated_at : Z
}.

Record ConfigRow := {
  value : Js.Val;
  c_updated_at : Z
}.

Record State := {
  available : bool;
  initialized : bool;
  reachable : bool;
  token_prices : list PriceRow;
  bot_config : gmap string ConfigRow
}.

Definition set_token_prices (rows : list PriceRow) (st : State) : State :=
  {| available := available st; initialized := initialized st;
     reachable := reachable st; token_prices := rows; bot_config := bot_config st |}.

Definition set_bot_config (m : gmap string ConfigRow) (st : State) : State :=
  {| available := available st; initialized := initialized st;
     reachable := reachable st; token_prices := token_prices st; bot_config := m |}.

(** What a column holds after the JSON body of the request was written:
    [undefined], [NaN] and the infinities arrive as [null]. *)
Definition column (v : Js.Val) : Js.Val :=
  match v with
  | Js.Undefined => Js.Null
  | Js.Num Js.NaN => Js.Null
  | Js.Num (Js.Infinity _) => Js.Null
  | _ => v
  end.

Definition is_null (v : Js.Val) : bool :=
  match v with Js.Null => true | _ => false end.

(** [isAvailable()] *)
Definition isAvailable (st : State) : bool := available st.

(** [ensureInitialized()], of which the callers ignore the result:
    [initializeTables] leaves the tables as they are when they exist and
    sets [initialized]. *)
Definition ensureInitialized (st : State) : State :=
  if negb (available st) then st
  else if negb (initialized st)
       then {| available := available st; initialized := true;
               reachable := reachable st; token_prices := token_prices st;
               bot_config := bot_config st |}
       else st.

(** [saveTokenPrice(token, price)]; the columns declared [NOT NULL] refuse a
    [null].  Returns [null] on every path. *)
Definition saveTokenPrice (now : Z) (tok : Payload.Token) (p : Payload.Price) (st : State)
  : State :=
  let row := {| token_address := column (Payload.address tok);
                pool_address := Payload.poolAddress tok;
                ticker := column (Payload.ticker tok);
                name := column (Payload.name tok);
                price := column (Payload.price p);
                market_cap := column (Payload.marketCap p);
                liquidity := column (Payload.liquidity p);
                volume_24h := column (Payload.volume24h p);
                dex_id := column (Payload.dexId p);
                updated_at := now |} in
  if reachable st
     && negb (is_null (token_address row) || is_null (ticker row) || is_null (price row))
  then set_token_prices (token_prices st ++ [row]) st
  else st.

Definition rows_of (pool : string) (st : State) : list PriceRow :=
  filter (fun r => pool_address r = pool) (token_prices st).

Definition newer (a b : PriceRow) : PriceRow :=
  if updated_at a <? updated_at b then b else a.

(** [.order('updated_at', { ascending: false }).limit(1).single()]: the row
    with the greatest [updated_at], none when there is no row. *)
Definition latest (rows : list PriceRow) : option PriceRow :=
  match rows with
  | [] => None
  | r :: rs => Some (foldl newer r rs)
  end.

(** [getTokenPrice(poolAddress)] *)
Definition getTokenPrice (now : Z) (pool : string) (st : State) : option Payload.Price :=
  if negb (reachable st) then None
  else
    match latest (rows_of pool st) with
    | None => None
    | Some d =>
        let thirtySecondsAgo := now - 30 * 1000 in
        if updated_at d <? thirtySecondsAgo then None
        else Some {| Payload.price := price d; Payload.marketCap := market_cap d;
                     Payload.liquidity := liquidity d; Payload.volume24h := volume_24h d;
                     Payload.dexId := dex_id d |}
    end.

(** [.order('updated_at', { ascending: false })] *)
Definition newer_first (a b : PriceRow) : Prop := updated_at b <= updated_at a.

#[global] Instance newer_first_dec : RelDecision newer_first.
Proof. intros a b. unfold newer_first. apply _. Defined.

(** [getPriceHistory(poolAddress, limit = 24)] *)
Definition getPriceHistory (pool : string) (limit : option Z) (st : State)
  : list Payload.HistoryPoint :=
  if negb (reachable st) then []
  else
    let sorted := merge_sort newer_first (rows_of pool st) in
    map (fun r => {| Payload.h_price := price r; Payload.h_updated_at := updated_at r |})
        (take (Z.to_nat (default 24 limit)) sorted).

(** [clearHistory(poolAddress)] *)
Definition clearHistory (pool : string) (st : State) : State * bool :=
  if reachable st
  then (set_token_prices (filter (fun r => pool_address r ≠ pool) (token_prices st)) st, true)
  else (st, false).

(** [updateConfig(key, value)]; [value.toString()] throws on [null] and
    [undefined], inside the [try]. *)
Definition updateConfig (now : Z) (key : string) (v : Js.Val) (st : State) : State * bool :=
  let st := ensureInitialized st in
  match v with
  | Js.Undefined | Js.Null => (st, false)
  | _ =>
      if reachable st
      then (set_bot_config (<[key := {| value := v; c_updated_at := now |}]> (bot_config st)) st,
            true)
      else (st, false)
  end.

(** [getConfig(key)]: the row of the key, [null] when the request fails or
    there is no such row. *)
Definition getConfig (key : string) (st : State) : State * option ConfigRow :=
  let st := ensureInitialized st in
  if reachable st then (st, bot_config st !! key) else (st, None).

(** [testConnection()] *)
Definition testConnection (st : State) : bool :=
  if negb (available st) then false
  else reachable st.

End Supabase.

(** ** src/services/storage.js: class [StorageService] *)

Module StorageService.

(** The object [this.storage] refers to. *)
Inductive Store := SupabaseStore | MemoryStore.

(** The two module singletons the facade works on. *)
Record Stores := {
  memory : MemoryStorage.State;
  supabase : Supabase.State
}.

(** A function pushed on a synchronization bucket, run at an instant. *)
Definition Operation := Z -> Stores -> Js.Completion Stores unit.

Record State := {
  useSupabase : bool;
  storage : Store;
  syncLock : gmap string bool;
  syncQueue : gmap string (list Operation);
  lastSync : gmap string Z;
  syncInterval : Z;
  stores : Stores
}.

Definition set_useSupabase (b : bool) (st : State) : State :=
  {| useSupabase := b; storage := storage st; syncLock := syncLock st;
     syncQueue := syncQueue st; lastSync := lastSync st;
     syncInterval := syncInterval st; stores := stores st |}.

Definition set_syncLock (m : gmap string bool) (st : State) : State :=
  {| useSupabase := useSupabase st; storage := storage st; syncLock := m;
     syncQueue := syncQueue st; lastSync := lastSync st;
     syncInterval := syncInterval st; stores := stores st |}.

Definition set_syncQueue (m : gmap string (list Operation)) (st : State) : State :=
  {| useSupabase := useSupabase st; storage := storage st; syncLock := syncLock st;
     syncQueue := m; lastSync := lastSync st;
     syncInterval := syncInterval st; stores := stores st |}.

Definition set_lastSync (m : gmap string Z) (st : State) : State :=
  {| useSupabase := useSupabase st; storage := storage st; syncLock := syncLock st;
     syncQueue := syncQueue st; lastSync := m;
     syncInterval := syncInterval st; stores := stores st |}.

Definition set_stores (s : Stores) (st : State) : State :=
  {| useSupabase := useSupabase st; storage := storage st; syncLock := syncLock st;
     syncQueue := syncQueue st; lastSync := lastSync st;
     syncInterval := syncInterval st; stores := s |}.

Definition set_memory (m : MemoryStorage.State) (s : Stores) : Stores :=
  {| memory := m; supabase := supabase s |}.

Definition set_supabase (r : Supabase.State) (s : Stores) : Stores :=
  {| memory := memory s; supabase := r |}.

(** [constructor()] over the two singletons. *)
Definition constructor (s : Stores) : State :=
  {| useSupabase := true;
     storage := SupabaseStore;
     syncLock := ∅;
     syncQueue := ∅;
     lastSync := ∅;
     syncInterval := 5000;
     stores := s |}.

Definition held (key : string) (st : State) : bool :=
  match syncLock st !! key with
  | Some b => b
  | None => false
  end.

(** [acquireLock(key)] *)
Definition acquireLock (key : string) (st : State) : State * bool :=
  if held key st then (st, false)
  else (set_syncLock (<[key := true]> (syncLock st)) st, true).

(** [releaseLock(key)] *)
Definition releaseLock (key : string) (st : State) : State :=
  set_syncLock (delete key (syncLock st)) st.

Definition is_type (t : string) (v : Js.Val) : bool := String.eqb (Js.typeof v) t.

(** [validateData(data, type)], as its callers use it: through [!]. *)
Definition validateData (d : Js.Val) (type : string) : bool :=
  if negb (Js.truthy d) then false
  else if String.eqb type "price" then
    Js.truthy (Js.get d "price") && is_type "number" (Js.get d "price")
    && Js.truthy (Js.get d "marketCap") && is_type "number" (Js.get d "marketCap")
    && Js.truthy (Js.get d "liquidity") && is_type "number" (Js.get d "liquidity")
  else if String.eqb type "token" then
    Js.truthy (Js.get d "address") && is_type "string" (Js.get d "address")
    && Js.truthy (Js.get d "poolAddress") && is_type "string" (Js.get d "poolAddress")
    && Js.truthy (Js.get d "ticker") && is_type "string" (Js.get d "ticker")
  else if String.eqb type "config" then
    Js.truthy (Js.get d "key") && is_type "string" (Js.get d "key")
    && negb (Js.is_undefined (Js.get d "value"))
  else false.

Definition bucket (type : string) (st : State) : list Operation :=
  default [] (syncQueue st !! type).

(** The body of [try { await operation() } catch (error) { console.error }]. *)
Definition invoke (op : Operation) (now : Z) (s : Stores) : Stores :=
  Js.final_state (op now s).

Definition run_operations (ops : list Operation) (now : Z) (s : Stores) : Stores :=
  foldl (fun s op => invoke op now s) s ops.

(** [processSyncQueue(type)] up to its first [await operation()]: the lock
    is taken, the bucket read and emptied, the flush instant recorded.
    [None] when the lock is held, in which case the method returns at once. *)
Definition flush_begin (type : string) (now : Z) (st : State)
  : option (State * list Operation) :=
  let '(st, acquired) := acquireLock type st in
  if negb acquired then None
  else
    let operations := bucket type st in
    let st := set_syncQueue (<[type := []]> (syncQueue st)) st in
    let st := set_lastSync (<[type := now]> (lastSync st)) st in
    Some (st, operations).

(** The rest of [processSyncQueue(type)]: the operations read at the start
    are invoked in order, then the [finally] block releases the lock. *)
Definition flush_end (type : string) (operations : list Operation) (now : Z) (st : State)
  : State :=
  releaseLock type (set_stores (run_operations operations now (stores st)) st).

(** [processSyncQueue(type)] run without interleaving. *)
Definition processSyncQueue (type : string) (now : Z) (st : State) : State :=
  match flush_begin type now st with
  | None => st
  | Some (st, operations) => flush_end type operations now st
  end.

(** The first statements of [queueSync]: the operation is pushed on the
    bucket of its type. *)
Definition enqueue (type : string) (op : Operation) (st : State) : State :=
  set_syncQueue (<[type := bucket type st ++ [op]]> (syncQueue st)) st.

(** [queueSync(type, operation)]; [lastSync.get(type) || 0]. *)
Definition queueSync (type : string) (op : Operation) (now : Z) (st : State) : State :=
  let st := enqueue type op st in
  let lastSyncTime := default 0 (lastSync st !! type) in
  if syncInterval st <? now - lastSyncTime
  then processSyncQueue type now st
  else st.

(** [async () => { await memoryStorage.saveTokenPrice(token, price); }] *)
Definition sync_price (tok : Payload.Token) (p : Payload.Price) : Operation :=
  fun now s => Js.Returned (set_memory (MemoryStorage.saveTokenPrice now tok p (memory s)) s) ().

(** [async () => { await supabase.updateConfig(key, value); }] *)
Definition sync_config (key : string) (v : Js.Val) : Operation :=
  fun now s => Js.Returned (set_supabase (fst (Supabase.updateConfig now key v (supabase s))) s) ().

(** [this.storage.saveTokenPrice(token, price)] *)
Definition storage_saveTokenPrice (now : Z) (tok : Payload.Token) (p : Payload.Price)
    (st : State) : State * Js.Val :=
  match storage st with
  | SupabaseStore =>
      (set_stores (set_supabase (Supabase.saveTokenPrice now tok p (supabase (stores st)))
                                (stores st)) st, Js.Null)
  | MemoryStore =>
      (set_stores (set_memory (MemoryStorage.saveTokenPrice now tok p (memory (stores st)))
                              (stores st)) st, Js.Bool true)
  end.

(** [saveTokenPrice(token, price)].  The validator has checked that
    [token.poolAddress] is a string when the stores are reached, so the
    [None] branch stands for no path of the method. *)
Definition saveTokenPrice (now : Z) (token price : Js.Val) (st : State)
  : Js.Completion State Js.Val :=
  if negb (validateData token "token") || negb (validateData price "price") then
    Js.Threw st (Js.new_Error "Invalid data for saving price")
  else
    match Payload.as_token token with
    | None => Js.Threw st (Js.new_Error "Invalid data for saving price")
    | Some tok =>
        let p := Payload.as_price price in
        let '(st, result) := storage_saveTokenPrice now tok p st in
        let st := if useSupabase st
                  then queueSync "price" (sync_price tok p) now st
                  else st in
        Js.Returned st result
    end.

(** [updateConfig(key, value)]; as above for the key, which the validator
    has checked to be a string. *)
Definition updateConfig (now : Z) (key value : Js.Val) (st : State)
  : Js.Completion State bool :=
  let configData := Js.Obj [("key", key); ("value", value)] in
  if negb (validateData configData "config") then
    Js.Threw st (Js.new_Error "Invalid configuration data")
  else
    match key with
    | Js.Str k =>
        let st := set_stores (set_memory (MemoryStorage.updateConfig k value (memory (stores st)))
                                         (stores st)) st in
        let st := if useSupabase st
                  then queueSync "config" (sync_config k value) now st
                  else st in
        Js.Returned st true
    | _ => Js.Threw st (Js.new_Error "Invalid configuration data")
    end.

(** [isSupabaseAvailable()] *)
Definition isSupabaseAvailable (st : State) : bool :=
  Supabase.isAvailable (supabase (stores st)).

(** [setStorageMode(useSupabase)] *)
Definition setStorageMode (b : bool) (st : State) : State :=
  if b && negb (isSupabaseAvailable st) then st
  else set_useSupabase b st.

(** [getStorageMode()] *)
Definition getStorageMode (st : State) : string :=
  if useSupabase st then "supabase" else "memory".

(** [getTokenPrice(poolAddress)] *)
Definition getTokenPrice (now : Z) (pool : string) (st : State) : option Payload.Price :=
  match storage st with
  | SupabaseStore => Supabase.getTokenPrice now pool (supabase (stores st))
  | MemoryStore => MemoryStorage.getTokenPrice now pool (memory (stores st))
  end.

(** [getPriceHistory(poolAddress, limit)] *)
Definition getPriceHistory (pool : string) (limit : option Z) (st : State)
  : list Payload.HistoryPoint :=
  match storage st with
  | SupabaseStore => Supabase.getPriceHistory pool limit (supabase (stores st))
  | MemoryStore => MemoryStorage.getPriceHistory pool (memory (stores st))
  end.

(** [clearHistory(poolAddress)] *)
Definition clearHistory (pool : string) (st : State) : State * bool :=
  match storage st with
  | SupabaseStore =>
      let '(r, ok) := Supabase.clearHistory pool (supabase (stores st)) in
      (set_stores (set_supabase r (stores st)) st, ok)
  | MemoryStore =>
      (set_stores (set_memory (MemoryStorage.clearHistory pool (memory (stores st)))
                              (stores st)) st, true)
  end.

(** What [getConfig] hands to its caller: [{ key, value }] from the local
    store, the row ([updated_at] included) from the remote one. *)
Record Config := {
  c_key : string;
  c_value : Js.Val;
  c_updated_at : option Z
}.

Definition config_of_memory (kv : string * Js.Val) : Config :=
  {| c_key := fst kv; c_value := snd kv; c_updated_at := None |}.

(** The row as the client returns it: the [value] column is text. *)
Definition config_of_row (show : Js.Number -> string) (key : string)
    (row : Supabase.ConfigRow) : Config :=
  {| c_key := key; c_value := Js.Str (Js.toString show (Supabase.value row));
     c_updated_at := Some (Supabase.c_updated_at row) |}.

(** [getConfig(key)]; neither store's [getConfig] throws, so the [catch] is
    not entered. *)
Definition getConfig (show : Js.Number -> string) (key : string) (st : State)
  : State * option Config :=
  let '(st, config) :=
    if useSupabase st then
      let '(r, row) := Supabase.getConfig key (supabase (stores st)) in
      (set_stores (set_supabase r (stores st)) st, config_of_row show key <$> row)
    else (st, None) in
  let config :=
    match config with
    | Some c => Some c
    | None => config_of_memory <$> MemoryStorage.getConfig key (memory (stores st))
    end in
  match config with
  | Some c =>
      if useSupabase st
      then (set_stores (set_memory (MemoryStorage.updateConfig key (c_value c)
                                      (memory (stores st))) (stores st)) st, Some c)
      else (st, Some c)
  | None => (st, None)
  end.

(** [testConnection()] *)
Definition testConnection (st : State) : bool :=
  match storage st with
  | SupabaseStore => Supabase.testConnection (supabase (stores st))
  | MemoryStore => true
  end.

End StorageService.

(** ** The privileged-user set

    The methods on secondary admins of the three classes touch nothing but
    the set of ids of the local store and the [secondary_admins] table of
    the remote one; they are embedded over these two, the facade state
    giving the mode and whether the remote store answers.  A user id is a
    string ([userId.toString()]). *)

Module Admins.

Record Sets := {
  local : gset string;
  remote : gset string
}.

(** [MemoryStorage.getSecondaryAdmins()] *)
Definition memory_get (a : Sets) : gset string := local a.

(** [MemoryStorage.addSecondaryAdmin(userId)]; returns [true]. *)
Definition memory_add (u : string) (a : Sets) : Sets :=
  {| local := {[u]} ∪ local a; remote := remote a |}.

(** [MemoryStorage.removeSecondaryAdmin(userId)]; returns [true]. *)
Definition memory_remove (u : string) (a : Sets) : Sets :=
  {| local := local a ∖ {[u]}; remote := remote a |}.

(** [SupabaseService.getSecondaryAdmins()]: the empty set on error. *)
Definition supabase_get (r : Supabase.State) (a : Sets) : gset string :=
  if Supabase.reachable r then remote a else ∅.

(** [SupabaseService.addSecondaryAdmin(userId)]: [user_id] is the primary
    key, so the insert of an id already there fails. *)
Definition supabase_add (u : string) (r : Supabase.State) (a : Sets) : Sets * bool :=
  if Supabase.reachable r && negb (bool_decide (u ∈ remote a))
  then ({| local := local a; remote := {[u]} ∪ remote a |}, true)
  else (a, false).

(** [SupabaseService.removeSecondaryAdmin(userId)] *)
Definition supabase_remove (u : string) (r : Supabase.State) (a : Sets) : Sets * bool :=
  if Supabase.reachable r
  then ({| local := local a; remote := remote a ∖ {[u]} |}, true)
  else (a, false).

(** [for (const adminId of admins) await memoryStorage.addSecondaryAdmin(adminId)] *)
Definition copy_to_memory (admins : gset string) (a : Sets) : Sets :=
  {| local := admins ∪ local a; remote := remote a |}.

Definition is_empty (s : gset string) : bool := bool_decide (s = ∅).

(** [StorageService.getSecondaryAdmins()] *)
Definition getSecondaryAdmins (st : StorageService.State) (a : Sets)
  : Sets * gset string :=
  let r := StorageService.supabase (StorageService.stores st) in
  let admins := if StorageService.useSupabase st then supabase_get r a else ∅ in
  let admins := if is_empty admins then memory_get a else admins in
  if negb (is_empty admins) && StorageService.useSupabase st
  then (copy_to_memory admins a, admins)
  else (a, admins).

(** [StorageService.addSecondaryAdmin(userId)]; returns [true]. *)
Definition addSecondaryAdmin (u : string) (st : StorageService.State) (a : Sets) : Sets :=
  let a := memory_add u a in
  if StorageService.useSupabase st
  then fst (supabase_add u (StorageService.supabase (StorageService.stores st)) a)
  else a.

(** [StorageService.removeSecondaryAdmin(userId)]; returns [true]. *)
Definition removeSecondaryAdmin (u : string) (st : StorageService.State) (a : Sets) : Sets :=
  let a := memory_remove u a in
  if StorageService.useSupabase st
  then fst (supabase_remove u (StorageService.supabase (StorageService.stores st)) a)
  else a.

(** [StorageService.loadSecondaryAdmins()], run by the constructor with the
    ["admins"] lock taken and released around it. *)
Definition loadSecondaryAdmins (st : StorageService.State) (a : Sets) : Sets :=
  if StorageService.held "admins" st then a
  else if StorageService.useSupabase st
       then copy_to_memory
              (supabase_get (StorageService.supabase (StorageService.stores st)) a) a
       else a.

End Admins.

(** ** The callers in the bot *)

Module Bot.

(** [initializeStorage()]: the facade after the call and the value
    returned.  Nothing in the [try] throws, so the [catch] is not entered. *)
Definition initializeStorage (st : StorageService.State) : StorageService.State * bool :=
  if StorageService.testConnection st
  then (StorageService.setStorageMode true st, true)
  else (StorageService.setStorageMode false st, false).

(** [history.find(h => new Date(h.updated_at) <= new Date(Date.now() - ago))],
    of the [/history] command. *)
Definition find_at_least (ago : Z) (now : Z) (history : list Payload.HistoryPoint)
  : option Payload.HistoryPoint :=
  snd <$> list_find (fun h => Payload.h_updated_at h <= now - ago) history.

(** [history[0]]: the point whose price the command shows as current. *)
Definition current_point (history : list Payload.HistoryPoint) : option Payload.HistoryPoint :=
  head history.

Definition TOKENS_PER_PAGE : Z := 5.

(** [array.slice(start, end)] *)
Definition slice {A} (start end_ : Z) (l : list A) : list A :=
  let len := Z.of_nat (length l) in
  let from := if start <? 0 then Z.max (len + start) 0 else Z.min start len in
  let to := if end_ <? 0 then Z.max (len + end_) 0 else Z.min end_ len in
  take (Z.to_nat (to - from)) (drop (Z.to_nat from) l).

(** [Math.ceil(n / TOKENS_PER_PAGE)] *)
Definition totalPages (n : nat) : Z :=
  (Z.of_nat n + TOKENS_PER_PAGE - 1) / TOKENS_PER_PAGE.

(** [Math.min(Math.max(parseInt(match[1] || 1), 1), totalPages)]; the group
    matches digits only, [None] is the command without a number. *)
Definition page_number (requested : option N) (n : nat) : Z :=
  Z.min (Z.max (Z.of_N (default 1%N requested)) 1) (totalPages n).

(** The tokens the [/tokens] command lists. *)
Definition page_tokens {A} (requested : option N) (tokens : list A) : list A :=
  let page := page_number requested (length tokens) in
  let start := (page - 1) * TOKENS_PER_PAGE in
  let end_ := start + TOKENS_PER_PAGE in
  slice start end_ tokens.

End Bot.

(** * Vocabulary of the properties *)

Module QueueSpec.

Import PriceQueue.

Definition ids (q : list Item) : list string := map id q.







End QueueSpec.

(** Concrete queues the properties are exercised on. *)

Module QueueSamples.

Import PriceQueue.

(** A handler whose promise never settles: every call times out. *)
Definition stuck_handler : Handler := fun _ _ => Never.

Definition sample_item : Item :=
  {| id := "1700000000000-k3j9x2abc"; data := Js.Obj [("pool", Js.Str "P1")];
     addedAt := 1700000000000; retries := 0; lastError := None |}.

(** The exported queue, idle, holding [sample_item]. *)
Definition one_pending : State :=
  set_queue [sample_item] (exported [stuck_handler]).

(** The same with a drain session of 12 seconds only. *)
Definition one_pending_short_session : State :=
  set_queue [sample_item]
    (constructor {| opt_maxQueueSize := None; opt_processingTimeout := Some 12000;
                    opt_handlerTimeout := None; opt_maxRetries := None |}
                 [stuck_handler]).

(** A handler that throws [null] before it returns a promise. *)
Definition null_thrower : Handler := fun _ _ => ThrowsSync Js.Null.

(** The exported queue, idle, holding [sample_item], with that handler. *)
Definition one_pending_null_thrower : State :=
  set_queue [sample_item] (exported [null_thrower]).

(** The exported queue in the middle of a drain, holding 1000 items. *)
Definition full_queue : State :=
  set_processing true (set_queue (replicate 1000 sample_item) (exported [stuck_handler])).

(** The exported queue in the middle of a drain, holding 999 items. *)
Definition nearly_full_queue : State :=
  set_processing true (set_queue (replicate 999 sample_item) (exported [stuck_handler])).

Definition no_options : Options :=
  {| opt_maxQueueSize := None; opt_processingTimeout := None;
     opt_handlerTimeout := None; opt_maxRetries := None |}.

End QueueSamples.

(** Vocabulary for the two stores. *)

Module StoreSpec.

Import Payload.

(** One call [saveTokenPrice(token, price)] at the instant [at_]. *)
Record Save := {
  at_ : Z;
  tok : Token;
  pr : Price
}.

(** A sequence of [saveTokenPrice] calls on the local store, in call order. *)
Definition run_saves (saves : list Save) (st : MemoryStorage.State) : MemoryStorage.State :=
  foldl (fun st s => MemoryStorage.saveTokenPrice (at_ s) (tok s) (pr s) st) st saves.

(** The history point a save contributes. *)
Definition point_of (s : Save) : HistoryPoint :=
  {| h_price := price (pr s); h_updated_at := at_ s |}.

Definition for_pool (pool : string) (s : Save) : Prop := poolAddress (tok s) = pool.

#[global] Instance for_pool_dec pool s : Decision (for_pool pool s).
Proof. unfold for_pool. apply _. Defined.

(** The points saved for one pool, oldest first. *)
Definition points_for (pool : string) (saves : list Save) : list HistoryPoint :=
  point_of <$> filter (for_pool pool) saves.

(** No entry is newer than one nearer the front. *)
Definition newest_first (h : list HistoryPoint) : Prop :=
  StronglySorted (fun a b => h_updated_at b <= h_updated_at a) h.

Definition not_after (a b : Save) : Prop := at_ a <= at_ b.

#[global] Instance not_after_dec : RelDecision not_after.
Proof. intros a b. unfold not_after. apply _. Defined.

(** The clock never goes back between two calls. *)
Definition clock_monotone (saves : list Save) : Prop :=
  StronglySorted not_after saves.

(** A value that comes back from a column as it was sent. *)
Definition json_value (v : Js.Val) : Prop := Supabase.column v = v.

Definition representable (p : Price) : Prop :=
  json_value (price p) /\ json_value (marketCap p) /\ json_value (liquidity p) /\
  json_value (volume24h p) /\ json_value (dexId p).

(** The [NOT NULL] columns of the row get a value. *)
Definition table_accepts (t : Token) (p : Price) : Prop :=
  Supabase.column (address t) <> Js.Null /\ Supabase.column (ticker t) <> Js.Null /\
  Supabase.column (price p) <> Js.Null.

Definition price_of_row (r : Supabase.PriceRow) : Price :=
  {| price := Supabase.price r; marketCap := Supabase.market_cap r;
     liquidity := Supabase.liquidity r; volume24h := Supabase.volume_24h r;
     dexId := Supabase.dex_id r |}.

End StoreSpec.

Module StoreSamples.

Import Payload.

Definition number (n : Z) : Js.Val := Js.Num (Js.Finite (Qmake n 1)).

Definition token_P1 : Token :=
  {| address := Js.Str "0xT1"; poolAddress := "P1"; ticker := Js.Str "TKN";
     name := Js.Str "Token" |}.

Definition price_1 : Price :=
  {| price := number 2; marketCap := number 1000; liquidity := number 500;
     volume24h := number 10; dexId := Js.Str "uniswap" |}.

Definition price_2 : Price :=
  {| price := number 3; marketCap := number 1500; liquidity := number 500;
     volume24h := number 12; dexId := Js.Str "uniswap" |}.

Definition t0 : Z := 1700000000000.

(** A remote store that answers, with empty tables. *)
Definition remote_up : Supabase.State :=
  {| Supabase.available := true; Supabase.initialized := true;
     Supabase.reachable := true; Supabase.token_prices := [];
     Supabase.bot_config := ∅ |}.

(** A remote store with valid credentials that does not answer. *)
Definition remote_down : Supabase.State :=
  {| Supabase.available := true; Supabase.initialized := true;
     Supabase.reachable := false; Supabase.token_prices := [];
     Supabase.bot_config := ∅ |}.

(** A remote store whose credentials failed the check at start. *)
Definition remote_unavailable : Supabase.State :=
  {| Supabase.available := false; Supabase.initialized := false;
     Supabase.reachable := false; Supabase.token_prices := [];
     Supabase.bot_config := ∅ |}.

(** Twenty-six saves for [P1], one a second. *)
Definition many_saves : list StoreSpec.Save :=
  (fun i : nat => {| StoreSpec.at_ := t0 + 1000 * Z.of_nat i; StoreSpec.tok := token_P1;
                     StoreSpec.pr := price_1 |}) <$> seq 0 26.

End StoreSamples.

(** Vocabulary for the storage facade. *)

Module FacadeSpec.

Import StorageService.

(** A number other than [NaN] and zero. *)
Definition nonzero_number (v : Js.Val) : bool :=
  match v with
  | Js.Num (Js.Finite q) => negb (Qnum q =? 0)
  | Js.Num (Js.Infinity _) => true
  | _ => false
  end.

Definition nonempty_string (v : Js.Val) : bool :=
  match v with
  | Js.Str s => negb (String.eqb s "")
  | _ => false
  end.




(** The key has the given value in the remote configuration table. *)
Definition remote_config_is (key : string) (v : Js.Val) (st : State) : Prop :=
  exists row, Supabase.bot_config (supabase (stores st)) !! key = Some row /\
              Supabase.value row = v.

(** The calls that change the facade or its stores. *)
Inductive Call :=
| CallSaveTokenPrice (now : Z) (token price : Js.Val)
| CallUpdateConfig (now : Z) (key value : Js.Val)
| CallSetStorageMode (b : bool)
| CallClearHistory (pool : string)
| CallQueueSync (type : string) (op : Operation) (now : Z)
| CallProcessSyncQueue (type : string) (now : Z).

Definition perform (st : State) (c : Call) : State :=
  match c with
  | CallSaveTokenPrice now token price => Js.final_state (saveTokenPrice now token price st)
  | CallUpdateConfig now key value => Js.final_state (updateConfig now key value st)
  | CallSetStorageMode b => setStorageMode b st
  | CallClearHistory pool => fst (clearHistory pool st)
  | CallQueueSync type op now => queueSync type op now st
  | CallProcessSyncQueue type now => processSyncQueue type now st
  end.

(** A sequence of calls, each run to completion before the next. *)
Definition run_calls (calls : list Call) (st : State) : State :=
  foldl perform st calls.

(** An operation that leaves the result of the availability probe alone, as
    the two the facade queues do. *)
Definition keeps_availability (op : Operation) : Prop :=
  forall now s,
    Supabase.available (supabase (Js.final_state (op now s))) =
    Supabase.available (supabase s).

Definition buckets_keep_availability (st : State) : Prop :=
  forall type, Forall keeps_availability (bucket type st).

Definition call_keeps_availability (c : Call) : Prop :=
  match c with
  | CallQueueSync _ op _ => keeps_availability op
  | _ => True
  end.

(** What a call leaves alone when the probe fails and the facade is in local
    mode: the probe, the mode, and the kind of operations in the buckets. *)
Definition local_and_unavailable (st : State) : Prop :=
  isSupabaseAvailable st = false /\ useSupabase st = false /\
  buckets_keep_availability st.


(** *** The write path as the specification words it

    Each write goes synchronously to the store the mode flag designates;
    under remote mode a copy for the local store is queued; under local mode
    nothing else happens. *)





(** *** The shape check as the specification words it

    Required fields present, numeric fields true numbers. *)

Definition spec_true_number (v : Js.Val) : bool :=
  match v with
  | Js.Num Js.NaN => false
  | Js.Num _ => true
  | _ => false
  end.

Definition spec_present_string (v : Js.Val) : bool :=
  match v with
  | Js.Str _ => true
  | _ => false
  end.

Definition spec_well_shaped_price (v : Js.Val) : bool :=
  spec_true_number (Js.get v "price") && spec_true_number (Js.get v "marketCap")
  && spec_true_number (Js.get v "liquidity").

Definition spec_well_shaped_token (v : Js.Val) : bool :=
  spec_present_string (Js.get v "address") && spec_present_string (Js.get v "poolAddress")
  && spec_present_string (Js.get v "ticker").

Definition is_returned {S A} (c : Js.Completion S A) : bool :=
  match c with Js.Returned _ _ => true | Js.Threw _ _ => false end.

(** Every well-shaped price write is accepted. *)
Definition spec_well_shaped_accepted : Prop :=
  forall now token price st,
    spec_well_shaped_token token = true -> spec_well_shaped_price price = true ->
    is_returned (saveTokenPrice now token price st) = true.

End FacadeSpec.

Module FacadeSamples.

Import StorageService StoreSamples.

Definition token_js : Js.Val :=
  Js.Obj [("address", Js.Str "0xT1"); ("poolAddress", Js.Str "P1");
          ("ticker", Js.Str "TKN"); ("name", Js.Str "Token")].

Definition price_js : Js.Val :=
  Js.Obj [("price", number 2); ("marketCap", number 1000); ("liquidity", number 500);
          ("volume24h", number 10); ("dexId", Js.Str "uniswap")].

(** A pool without liquidity: every field present, every number a number. *)
Definition price_js_no_liquidity : Js.Val :=
  Js.Obj [("price", number 2); ("marketCap", number 1000); ("liquidity", number 0);
          ("volume24h", number 10); ("dexId", Js.Str "uniswap")].

(** The facade as constructed, over an empty local store and a remote
    store that answers. *)
Definition fresh : State :=
  constructor {| memory := MemoryStorage.constructor; supabase := remote_up |}.

(** The same over a remote store that does not answer. *)
Definition fresh_remote_down : State :=
  constructor {| memory := MemoryStorage.constructor; supabase := remote_down |}.

(** The same over a remote store whose credentials were refused; the bot
    switches such a facade to local mode at start. *)
Definition fresh_unavailable : State :=
  constructor {| memory := MemoryStorage.constructor; supabase := remote_unavailable |}.

(** Remote mode, one second after a configuration write flushed the
    ["config"] bucket. *)
Definition after_first_config : State :=
  Js.final_state (updateConfig t0 (Js.Str "sort_criteria") (Js.Str "liq") fresh).

(** A price saved while the remote store was down, then the switch to
    local mode. *)
Definition degraded : State :=
  setStorageMode false
    (Js.final_state (saveTokenPrice t0 token_js price_js fresh_remote_down)).

Definition op_A : Operation := sync_config "sort_criteria" (Js.Str "liq").
Definition op_B : Operation := sync_config "ui_mode" (Js.Str "buttons").

(** Enqueue A and begin the flush (the lock is held, A is awaited);
    enqueue B a millisecond later; the flush ends and releases the lock. *)
Definition late_work_scenario : option State :=
  match flush_begin "config" t0 (enqueue "config" op_A fresh) with
  | Some (st, operations) =>
      Some (flush_end "config" operations t0 (queueSync "config" op_B (t0 + 1) st))
  | None => None
  end.


(** An operation that throws after half of its work. *)
Definition failing_operation : Operation :=
  fun now s =>
    Js.Threw (set_memory (MemoryStorage.updateConfig "half" (Js.Str "done") (memory s)) s)
             (Js.new_Error "remote write failed").

(** A handler that throws [null] before returning a promise. *)
Definition throwing_handler : PriceQueue.Handler := fun _ _ => PriceQueue.ThrowsSync Js.Null.

End FacadeSamples.

(** Vocabulary for the further properties of the queue. *)

Module QueueMore.

Import PriceQueue.

(** Every attempt at every item of the queue succeeds. *)
Definition all_succeed (st : State) : Prop :=
  forall it now, it ∈ queue st -> exists d, processItem st now it = inl d.

(** The handler fulfils its promise no later than the timeout timer fires. *)
Definition fulfils_in_time (T now : Z) (d : Js.Val) (h : Handler) : Prop :=
  exists t, h now d = Resolves t /\ Z.max t 0 <= Z.max T 0.

(** The longest an attempt can take. *)
Definition attempt_limit (st : State) : Z := Z.max (handlerTimeout st) 0.

Definition rejected (c : Js.Completion State unit) : bool :=
  match c with Js.Threw _ _ => true | Js.Returned _ _ => false end.

(** A handler that fulfils after [t] milliseconds. *)
Definition quick_handler (t : Z) : Handler := fun _ _ => Resolves t.

Definition item_number (i : nat) : Item :=
  {| id := pretty (1700000000000 + Z.of_nat i) +:+ "-abc"; data := Js.Obj [];
     addedAt := 1700000000000 + Z.of_nat i; retries := 0; lastError := None |}.

(** The exported queue, idle, with a handler that takes a second and three
    pending items. *)
Definition three_pending : State :=
  set_queue (item_number <$> seq 0 3) (exported [quick_handler 1000]).

End QueueMore.

(** Vocabulary for the further properties of the facade. *)

Module FacadeMore.

Import StorageService.

(** A sequence of [queueSync] calls on one bucket, each with its instant. *)
Definition run_syncs (type : string) (calls : list (Operation * Z)) (st : State) : State :=
  foldl (fun st c => queueSync type (fst c) (snd c) st) st calls.

(** Operations invoked one after the other, each at its instant. *)
Definition applied (done : list (Operation * Z)) (s : Stores) : Stores :=
  foldl (fun s c => invoke (fst c) (snd c) s) s done.

(** A printing of numbers for the examples; the statements hold for any. *)
Definition show_sample (n : Js.Number) : string :=
  match n with
  | Js.Finite q => pretty (Qnum q)
  | Js.NaN => "NaN"
  | Js.Infinity false => "Infinity"
  | Js.Infinity true => "-Infinity"
  end.

(** Remote mode; ["ui_mode"] was set to ["buttons"] and flushed, then set to
    ["text"] a second later, which is still in the bucket. *)
Definition unflushed_write : State :=
  Js.final_state
    (updateConfig (StoreSamples.t0 + 1000) (Js.Str "ui_mode") (Js.Str "text")
       (Js.final_state
          (updateConfig StoreSamples.t0 (Js.Str "ui_mode") (Js.Str "buttons")
                        FacadeSamples.fresh))).

End FacadeMore.

(** Vocabulary for the privileged-user set. *)

Module AdminSamples.

Import StorageService.

(** [7] was made an admin while the facade was in local mode; the remote
    table is empty. *)
Definition one_local_admin : Admins.Sets :=
  {| Admins.local := {["7"]}; Admins.remote := ∅ |}.

End AdminSamples.

(** Vocabulary for the further properties of the remote store. *)

Module StoreMore.

(** The two columns [getPriceHistory] selects. *)
Definition point_of_row (r : Supabase.PriceRow) : Payload.HistoryPoint :=
  {| Payload.h_price := Supabase.price r; Payload.h_updated_at := Supabase.updated_at r |}.

(** Two saves for [P1], one second apart, on a remote store that answers. *)
Definition remote_two_saves : Supabase.State :=
  Supabase.saveTokenPrice (StoreSamples.t0 + 1000) StoreSamples.token_P1 StoreSamples.price_2
    (Supabase.saveTokenPrice StoreSamples.t0 StoreSamples.token_P1 StoreSamples.price_1
       StoreSamples.remote_up).

End StoreMore.

(** Vocabulary for the bot's commands. *)

Module BotSamples.

(** A series of three points: now, half an hour ago, an hour and a half ago. *)
Definition three_points : list Payload.HistoryPoint :=
  [ {| Payload.h_price := StoreSamples.number 3; Payload.h_updated_at := StoreSamples.t0 |};
    {| Payload.h_price := StoreSamples.number 2;
       Payload.h_updated_at := StoreSamples.t0 - 1800000 |};
    {| Payload.h_price := StoreSamples.number 1;
       Payload.h_updated_at := StoreSamples.t0 - 5400000 |} ].

End BotSamples.

(** * Properties of the update queue *)

Section QueueFacts.

Import PriceQueue.

Lemma budget_app (m : Z) (a b : list Item) :
  budget m (a ++ b) = (budget m a + budget m b)%nat.
Proof. induction a as [|x a IH]; simpl; [done | rewrite IH; lia]. Qed.

(** What a completed [handleFailedItem] leaves behind. *)
Lemma handleFailedItem_returned now it e st st2 u :
  handleFailedItem now it e st = Js.Returned st2 u ->
  exists m, Js.read_message e = Some m /\
    maxRetries st2 = maxRetries st /\ handlers st2 = handlers st /\
    handlerTimeout st2 = handlerTimeout st /\
    processingTimeout st2 = processingTimeout st /\
    maxQueueSize st2 = maxQueueSize st /\
    processing st2 = processing st /\
    ((retries it < maxRetries st /\
      queue st2 = queue st ++ [{| id := id it; data := data it; addedAt := addedAt it;
                                  retries := retries it + 1; lastError := Some m |}] /\
      failedItems st2 = failedItems st /\
      retried (stats st2) = retried (stats st) + 1)
     \/
     (maxRetries st <= retries it /\
      queue st2 = queue st /\
      failedItems st2 =
        <[id it := {| item := it; finalError := m; failedAt := now |}]> (failedItems st) /\
      retried (stats st2) = retried (stats st))).
Proof.
  unfold handleFailedItem. simpl.
  destruct (Z.ltb_spec (retries it) (maxRetries st)) as [Hlt|Hge];
    destruct (Js.read_message e) as [m|]; intros H; inversion H; subst; clear H;
    exists m; simpl; repeat split; auto.
Qed.


Lemma handleFailedItem_threw now it e st st2 e' :
  handleFailedItem now it e st = Js.Threw st2 e' ->
  Js.nullish e = true /\ st2 = set_stats (incr_failed (stats st)) st.
Proof.
  unfold handleFailedItem, Js.read_message. simpl.
  destruct (retries it <? maxRetries st); destruct (Js.nullish e); intros H;
    inversion H; subst; simpl; auto.
Qed.

(** The fuel [processQueue] starts the loop with is enough: the loop is
    never left for want of it. *)
Lemma drain_fuel_enough fuel : forall start now st,
  (budget (maxRetries st) (queue st) <= fuel)%nat ->
  snd (drain fuel start now st) <> OutOfFuel.
Proof.
  induction fuel as [|fuel IH]; intros start now st Hb.
  - simpl. destruct (queue st) as [|it rest] eqn:Hq; [simpl; congruence|].
    simpl in Hb. unfold attempts_left in Hb. lia.
  - simpl. destruct (queue st) as [|it rest] eqn:Hq; [simpl; congruence|].
    destruct (processingTimeout st <? now - start); [simpl; congruence|].
    simpl in Hb.
    destruct (processItem (set_queue rest st) now it) as [d|[e d]] eqn:Hp.
    + apply IH. simpl. unfold attempts_left in Hb. clear -Hb. lia.
    + destruct (handleFailedItem (now + d) it e (set_queue rest st)) as [st2 u|st2 e'] eqn:Hh.
      * apply IH. apply handleFailedItem_returned in Hh.
        destruct Hh as (m & _ & HmR & _ & _ & _ & _ & _ & [(Hlt & Hq2 & _)|(Hge & Hq2 & _)]);
          rewrite HmR, Hq2; simpl.
        -- rewrite budget_app. simpl. unfold attempts_left in *. simpl.
           simpl in Hlt. clear -Hb Hlt. lia.
        -- unfold attempts_left in *. clear -Hb. lia.
      * simpl. congruence.
Qed.

End QueueFacts.

Section QueueLifecycle.

Import PriceQueue QueueSpec.

Lemma processItem_ext st st' now it it' :
  handlers st = handlers st' -> handlerTimeout st = handlerTimeout st' ->
  data it = data it' ->
  processItem st now it = processItem st' now it'.
Proof. intros Hh Ht Hd. unfold processItem. by rewrite Hh, Ht, Hd. Qed.


Lemma ids_app q1 q2 : ids (q1 ++ q2) = ids q1 ++ ids q2.
Proof. unfold ids. apply map_app. Qed.

Lemma elem_of_ids it q : it ∈ q -> id it ∈ ids q.
Proof. intros H. unfold ids. apply list_elem_of_fmap. eauto. Qed.





End QueueLifecycle.

Section QueueClaims.

Import PriceQueue QueueSpec.

(** A call that passes the re-entrancy guard runs the loop to one of its
    own exits and then the [finally] block. *)
Lemma processQueue_run now st :
  processing st = false ->
  exists st1 now1 ex,
    drain (budget (maxRetries st) (queue st)) now now (set_processing true st)
      = (st1, now1, ex) /\
    ex <> OutOfFuel /\
    processQueue_exit now st = (set_processing false st1, now1, Some ex) /\
    Js.final_state (processQueue now st) = set_processing false st1.
Proof.
  intros Hidle. unfold processQueue, processQueue_exit. rewrite Hidle. simpl.
  destruct (drain (budget (maxRetries st) (queue st)) now now (set_processing true st))
    as [[st1 now1] ex] eqn:Hd.
  exists st1, now1, ex. repeat split; auto.
  - pose proof (drain_fuel_enough (budget (maxRetries st) (queue st)) now now
                  (set_processing true st)) as Hf.
    rewrite Hd in Hf. simpl in Hf. apply Hf. lia.
  - by destruct ex.
Qed.


(** [add] on a queue that is being drained only appends. *)
Lemma add_while_processing now rnd d st :
  Z.of_nat (length (queue st)) < maxQueueSize st ->
  validateData d = true ->
  processing st = true ->
  add now rnd d st =
    Js.Returned (set_queue (queue st ++ [{| id := generateItemId now rnd; data := d;
                                             addedAt := now; retries := 0;
                                             lastError := None |}]) st) ().
Proof.
  intros Hroom Hvalid Hproc. unfold add.
  destruct (Z.leb_spec (maxQueueSize st) (Z.of_nat (length (queue st)))); [lia|].
  rewrite Hvalid. simpl. by rewrite Hproc.
Qed.



End QueueClaims.

(** * The duration of an attempt *)

Section QueueDuration.

Import PriceQueue QueueSpec QueueMore.

Lemma settle_bounds T o : 0 <= snd (settle T o) <= Z.max T 0.
Proof.
  destruct o as [v|d|d|]; simpl; try lia;
    destruct (Z.leb_spec (Z.max d 0) (Z.max T 0)); simpl; lia.
Qed.

Lemma foldr_max_bounds (H : Z) (ds : list Z) :
  0 <= H -> Forall (fun d => 0 <= d <= H) ds -> 0 <= foldr Z.max 0 ds <= H.
Proof.
  intros HH. induction 1 as [|d ds Hd Hds IH]; simpl; lia.
Qed.

(** An attempt takes no longer than the handler timeout. *)
Lemma processItem_duration st now it :
  match processItem st now it with
  | inl d => 0 <= d <= attempt_limit st
  | inr (_, d) => 0 <= d <= attempt_limit st
  end.
Proof.
  unfold processItem, attempt_limit.
  destruct (first_sync_throw _); [lia|].
  set (results := map (settle (handlerTimeout st)) _).
  assert (Hb : 0 <= foldr Z.max 0 (map snd results) <= Z.max (handlerTimeout st) 0).
  { apply foldr_max_bounds; [lia|]. subst results.
    rewrite Forall_forall. intros d Hd.
    apply list_elem_of_In, in_map_iff in Hd as (r & <- & Hr).
    apply in_map_iff in Hr as (o & <- & _). apply settle_bounds. }
  by destruct (0 <? _).
Qed.


End QueueDuration.

Section QueueTheorems.

Import PriceQueue QueueSpec QueueSamples QueueMore.

(** C5.  [add] on a queue whose pending count has reached [maxQueueSize]
    throws the queue-full error and leaves the state as it was: nothing is
    enqueued, nothing removed, no drain is started.  Below the ceiling a
    valid payload is appended at the tail as a fresh item, after which the
    queue is drained if no drain is running.  The ceiling is 1000 when the
    options give none. *)
Theorem C5_add_backpressure (now : Z) (rnd : string) (d : Js.Val) (st : State) :
  (maxQueueSize st <= Z.of_nat (length (queue st)) ->
   add now rnd d st =
     Js.Threw st (Js.new_Error ("Queue full: maximum " +:+ pretty (maxQueueSize st)
                                +:+ " items")))
  /\
  (Z.of_nat (length (queue st)) < maxQueueSize st ->
   validateData d = true ->
   let it := {| id := generateItemId now rnd; data := d; addedAt := now;
                retries := 0; lastError := None |} in
   let st1 := set_queue (queue st ++ [it]) st in
   add now rnd d st = if processing st then Js.Returned st1 () else processQueue now st1)
  /\
  (forall hs, maxQueueSize (constructor no_options hs) = 1000 /\
              maxQueueSize (exported hs) = 1000).
Proof.
  split; [|split].
  - intros Hfull. unfold add.
    destruct (Z.leb_spec (maxQueueSize st) (Z.of_nat (length (queue st)))); [done|lia].
  - intros Hroom Hvalid it st1. unfold add.
    destruct (Z.leb_spec (maxQueueSize st) (Z.of_nat (length (queue st)))); [lia|].
    rewrite Hvalid. simpl. by destruct (processing st).
  - intros hs. split; reflexivity.
Qed.

Lemma C5_add_backpressure_witness :
  (maxQueueSize full_queue <= Z.of_nat (length (queue full_queue)) /\
   add 1700000000500 "zzz" (Js.Obj []) full_queue =
     Js.Threw full_queue (Js.new_Error "Queue full: maximum 1000 items"))
  /\
  (Z.of_nat (length (queue nearly_full_queue)) < maxQueueSize nearly_full_queue /\
   validateData (Js.Obj []) = true /\
   add 1700000000500 "zzz" (Js.Obj []) nearly_full_queue =
     Js.Returned
       (set_queue (queue nearly_full_queue ++
                   [{| id := "1700000000500-zzz"; data := Js.Obj [];
                       addedAt := 1700000000500; retries := 0; lastError := None |}])
                  nearly_full_queue) ()).
Proof.
  split.
  - split; [vm_compute; discriminate|].
    apply (proj1 (C5_add_backpressure 1700000000500 "zzz" (Js.Obj []) full_queue)).
    vm_compute; discriminate.
  - split; [reflexivity|]. split; [reflexivity|].
    apply (proj1 (proj2 (C5_add_backpressure 1700000000500 "zzz" (Js.Obj [])
                           nearly_full_queue))); reflexivity.
Defined.





(** What the call does in that case: it rejects with the [TypeError] of the
    read, one failure counted, nothing retried, nothing logged, the queue
    empty. *)
Example null_thrower_run :
  processQueue 1700000000000 one_pending_null_thrower =
    Js.Threw
      (set_stats {| processed := 0; failed := 1; retried := 0; timeouts := 0 |}
         (set_queue [] one_pending_null_thrower))
      (Js.new_Error "Cannot read properties of null (reading 'message')").
Proof. reflexivity. Qed.


(** The exported queue with one item and a handler that never settles:
    four attempts of five seconds each, three retries, then the log. *)
Example one_pending_run :
  let st' := Js.final_state (processQueue 1700000000000 one_pending) in
  queue st' = [] /\ processing st' = false /\
  retried (stats st') = 3 /\ failed (stats st') = 4 /\ timeouts (stats st') = 0 /\
  failedItems st' !! "1700000000000-k3j9x2abc" =
    Some {| item := {| id := "1700000000000-k3j9x2abc";
                       data := Js.Obj [("pool", Js.Str "P1")];
                       addedAt := 1700000000000; retries := 3;
                       lastError := Some (Js.Str "1 handlers failed") |};
            finalError := Js.Str "1 handlers failed";
            failedAt := 1700000020000 |}.
Proof. vm_compute. repeat split. Qed.

(** With a drain session of 12 seconds the first call stops after three
    attempts and leaves the item queued with its budget used up; the next
    call logs it. *)
Example short_session_run :
  let st1 := Js.final_state (processQueue 1700000000000 one_pending_short_session) in
  let st2 := Js.final_state (processQueue 1700000060000 st1) in
  map retries (queue st1) = [3] /\ failedItems st1 = ∅ /\ timeouts (stats st1) = 1 /\
  queue st2 = [] /\ retried (stats st2) = 3 /\
  (retries ∘ item <$> failedItems st2 !! "1700000000000-k3j9x2abc") = Some 3.
Proof. vm_compute. repeat split. Qed.

End QueueTheorems.

(** * Properties of the stores *)

Section LocalHistory.

Import MemoryStorage StoreSpec.

Lemma push_front_take e h : push_front e h = take 24 (e :: h).
Proof.
  unfold push_front.
  destruct (Nat.ltb_spec 24 (length (e :: h))) as [H|H]; [done|].
  symmetry. by apply take_ge.
Qed.

Lemma saveTokenPrice_history now t p st pool :
  getPriceHistory pool (saveTokenPrice now t p st) =
    if decide (Payload.poolAddress t = pool)
    then take 24 ({| Payload.h_price := Payload.price p; Payload.h_updated_at := now |} :: getPriceHistory pool st)
    else getPriceHistory pool st.
Proof.
  unfold getPriceHistory, saveTokenPrice. simpl.
  destruct (decide (Payload.poolAddress t = pool)) as [<-|Hne].
  - by rewrite lookup_insert_eq, push_front_take.
  - by rewrite lookup_insert_ne.
Qed.

Lemma take_cons_take {A} (x : A) (l : list A) n :
  take (S n) (x :: take (S n) l) = take (S n) (x :: l).
Proof. simpl. f_equal. rewrite take_take. f_equal. lia. Qed.

Lemma run_saves_snoc saves s st :
  run_saves (saves ++ [s]) st = saveTokenPrice (at_ s) (tok s) (pr s) (run_saves saves st).
Proof. unfold run_saves. by rewrite foldl_app. Qed.

(** The series of a pool after any sequence of saves: the points saved for
    it, newest first, in front of what was there, cut at 24. *)
Lemma run_saves_history saves : forall st pool,
  (length (getPriceHistory pool st) <= 24)%nat ->
  getPriceHistory pool (run_saves saves st) =
    take 24 (reverse (points_for pool saves) ++ getPriceHistory pool st).
Proof.
  induction saves as [|s saves IH] using rev_ind; intros st pool Hlen.
  - simpl. symmetry. by apply take_ge.
  - rewrite run_saves_snoc, saveTokenPrice_history, (IH st pool Hlen).
    unfold points_for. rewrite filter_app, fmap_app, reverse_app.
    rewrite filter_cons, filter_nil.
    destruct (decide (Payload.poolAddress (tok s) = pool)) as [Heq|Hne].
    + rewrite (decide_True (P := for_pool pool s)) by exact Heq.
      change (reverse (point_of <$> [s])) with [point_of s].
      simpl. f_equal. by rewrite take_take.
    + by rewrite (decide_False (P := for_pool pool s)) by exact Hne.
Qed.

Lemma StronglySorted_filter {A} (R : relation A) (P : A -> Prop)
    `{forall x, Decision (P x)} (l : list A) :
  StronglySorted R l -> StronglySorted R (filter P l).
Proof.
  induction 1 as [|x l Hs IH Hall]; [constructor|].
  rewrite filter_cons. destruct (decide (P x)); [|done].
  constructor; [done|]. rewrite Forall_forall in *.
  intros y Hy. apply list_elem_of_filter in Hy. apply Hall. tauto.
Qed.

Lemma StronglySorted_reverse {A} (R : relation A) (l : list A) :
  StronglySorted R l -> StronglySorted (flip R) (reverse l).
Proof.
  induction 1 as [|x l Hs IH Hall]; [constructor|].
  rewrite reverse_cons. apply StronglySorted_app_2; [|done|repeat constructor].
  intros a b Ha Hb. apply list_elem_of_singleton in Hb. subst b. unfold flip.
  rewrite elem_of_reverse in Ha. rewrite Forall_forall in Hall. by apply Hall.
Qed.

Lemma StronglySorted_take {A} (R : relation A) (l : list A) n :
  StronglySorted R l -> StronglySorted R (take n l).
Proof.
  intros Hs. rewrite <- (take_drop n l) in Hs. by apply StronglySorted_app_1_l in Hs.
Qed.

Lemma points_newest_first pool saves n :
  clock_monotone saves -> newest_first (take n (reverse (points_for pool saves))).
Proof.
  intros Hc. apply StronglySorted_take.
  apply (StronglySorted_reverse (fun a b => Payload.h_updated_at a <= Payload.h_updated_at b)).
  unfold points_for.
  eapply (StronglySorted_fmap point_of not_after);
    [|by apply StronglySorted_filter].
  intros a b Hab. exact Hab.
Qed.

End LocalHistory.

Section StoreTheorems.

Import StoreSpec StoreSamples.

(** C4.  Local store, any sequence of [saveTokenPrice] calls on a fresh
    store, any pool: the series of the pool is the points saved for it in
    reverse call order, cut at 24 — so it never has more than 24 entries,
    and it is ordered newest first when the clock does not go back between
    calls.  One save puts its point at the front of the series of its pool
    and cuts the series at 24. *)
Theorem C4_history_bounded_newest_first (saves : list Save) (pool : string) :
  let h := MemoryStorage.getPriceHistory pool (run_saves saves MemoryStorage.constructor) in
  h = take 24 (reverse (points_for pool saves))
  /\ (length h <= 24)%nat
  /\ (clock_monotone saves -> newest_first h)
  /\ (forall now t p st,
        MemoryStorage.getPriceHistory (Payload.poolAddress t)
          (MemoryStorage.saveTokenPrice now t p st) =
        take 24 ({| Payload.h_price := Payload.price p; Payload.h_updated_at := now |}
                 :: MemoryStorage.getPriceHistory (Payload.poolAddress t) st)).
Proof.
  intros h.
  assert (Hh : h = take 24 (reverse (points_for pool saves))).
  { assert (H0 : MemoryStorage.getPriceHistory pool MemoryStorage.constructor = [])
      by (unfold MemoryStorage.getPriceHistory; simpl; by rewrite lookup_empty).
    subst h. rewrite run_saves_history by (rewrite H0; simpl; lia).
    by rewrite H0, app_nil_r. }
  split; [exact Hh|]. split; [|split].
  - rewrite Hh, length_take. lia.
  - intros Hc. rewrite Hh. by apply points_newest_first.
  - intros now t p st. rewrite saveTokenPrice_history. by rewrite decide_True.
Qed.

Lemma many_saves_monotone : clock_monotone many_saves.
Proof.
  apply (bool_decide_unpack (StronglySorted not_after many_saves)).
  vm_compute. exact I.
Qed.

Lemma C4_history_bounded_newest_first_witness :
  clock_monotone many_saves /\
  newest_first
    (MemoryStorage.getPriceHistory "P1" (run_saves many_saves MemoryStorage.constructor)).
Proof.
  split; [exact many_saves_monotone|].
  apply (proj1 (proj2 (proj2 (C4_history_bounded_newest_first many_saves "P1")))).
  exact many_saves_monotone.
Defined.

(** After twenty-six saves the series holds the last twenty-four, the
    newest at the front. *)
Example many_saves_history :
  let h := MemoryStorage.getPriceHistory "P1" (run_saves many_saves MemoryStorage.constructor) in
  length h = 24%nat /\
  Payload.h_updated_at <$> head h = Some (t0 + 25000) /\
  Payload.h_updated_at <$> last h = Some (t0 + 2000).
Proof. vm_compute. repeat split. Qed.

End StoreTheorems.

Section Freshness.

Import StoreSpec.

Lemma local_read_spec now pool st :
  MemoryStorage.getTokenPrice now pool st =
    match MemoryStorage.prices st !! pool with
    | Some d => if decide (now - MemoryStorage.updated_at d <= 30000)
                then Some (MemoryStorage.price d) else None
    | None => None
    end.
Proof.
  unfold MemoryStorage.getTokenPrice.
  destruct (MemoryStorage.prices st !! pool) as [d|]; [|done].
  destruct (Z.ltb_spec (MemoryStorage.updated_at d) (now - 30 * 1000));
    destruct (decide (now - MemoryStorage.updated_at d <= 30000)); try done; lia.
Qed.

Lemma remote_read_spec now pool st :
  Supabase.getTokenPrice now pool st =
    if Supabase.reachable st then
      match Supabase.latest (Supabase.rows_of pool st) with
      | Some d => if decide (now - Supabase.updated_at d <= 30000)
                  then Some (price_of_row d) else None
      | None => None
      end
    else None.
Proof.
  unfold Supabase.getTokenPrice.
  destruct (Supabase.reachable st); [|done]. simpl.
  destruct (Supabase.latest (Supabase.rows_of pool st)) as [d|]; [|done].
  destruct (Z.ltb_spec (Supabase.updated_at d) (now - 30 * 1000));
    destruct (decide (now - Supabase.updated_at d <= 30000)); try done; lia.
Qed.

Lemma foldl_newer_elem rs : forall r,
  foldl Supabase.newer r rs ∈ r :: rs.
Proof.
  induction rs as [|x rs IH]; intros r; simpl; [set_solver|].
  specialize (IH (Supabase.newer r x)). unfold Supabase.newer in *.
  destruct (Supabase.updated_at r <? Supabase.updated_at x); set_solver.
Qed.

(** The row a price read selects is one of the rows. *)
Lemma latest_elem rows d : Supabase.latest rows = Some d -> d ∈ rows.
Proof.
  destruct rows as [|r rs]; [done|]. simpl. intros [= <-]. apply foldl_newer_elem.
Qed.

Lemma foldl_newer_snoc rs : forall r x,
  Forall (fun y => Supabase.updated_at y < Supabase.updated_at x) (r :: rs) ->
  foldl Supabase.newer r (rs ++ [x]) = x.
Proof.
  intros r x Hall. rewrite foldl_app. simpl.
  pose proof (foldl_newer_elem rs r) as Hin.
  rewrite Forall_forall in Hall. apply Hall in Hin.
  unfold Supabase.newer at 1.
  destruct (Z.ltb_spec (Supabase.updated_at (foldl Supabase.newer r rs))
                       (Supabase.updated_at x)); [done|lia].
Qed.

(** A row newer than all the rows before it is the one selected. *)
Lemma latest_snoc rows x :
  Forall (fun y => Supabase.updated_at y < Supabase.updated_at x) rows ->
  Supabase.latest (rows ++ [x]) = Some x.
Proof.
  destruct rows as [|r rs]; [done|]. intros Hall. simpl. f_equal.
  by apply foldl_newer_snoc.
Qed.

Lemma column_not_null v : Supabase.column v <> Js.Null -> Supabase.is_null (Supabase.column v) = false.
Proof. by destruct (Supabase.column v). Qed.

(** A save the table takes adds one row. *)
Lemma remote_save_rows now t p st :
  Supabase.reachable st = true ->
  table_accepts t p ->
  exists row,
    Supabase.saveTokenPrice now t p st =
      Supabase.set_token_prices (Supabase.token_prices st ++ [row]) st /\
    Supabase.pool_address row = Payload.poolAddress t /\
    Supabase.updated_at row = now /\
    price_of_row row =
      {| Payload.price := Supabase.column (Payload.price p);
         Payload.marketCap := Supabase.column (Payload.marketCap p);
         Payload.liquidity := Supabase.column (Payload.liquidity p);
         Payload.volume24h := Supabase.column (Payload.volume24h p);
         Payload.dexId := Supabase.column (Payload.dexId p) |}.
Proof.
  intros Hr (Ha & Ht & Hp). unfold Supabase.saveTokenPrice. rewrite Hr. simpl.
  rewrite !column_not_null by done. simpl.
  eexists. split; [reflexivity|]. by repeat split.
Qed.

Lemma representable_price p :
  representable p ->
  {| Payload.price := Supabase.column (Payload.price p);
     Payload.marketCap := Supabase.column (Payload.marketCap p);
     Payload.liquidity := Supabase.column (Payload.liquidity p);
     Payload.volume24h := Supabase.column (Payload.volume24h p);
     Payload.dexId := Supabase.column (Payload.dexId p) |} = p.
Proof.
  intros (H1 & H2 & H3 & H4 & H5). unfold json_value in *.
  rewrite H1, H2, H3, H4, H5. by destruct p.
Qed.

End Freshness.

Section FreshnessTheorem.

Import StoreSpec StoreSamples.

(** C3.  On both read paths a price whose stored timestamp is more than 30
    seconds before the read is not returned, although the record is there:
    the local store answers absent for a stale entry, the remote adapter
    for a stale newest row, and whatever either returns comes from a record
    at most 30 seconds old.  A price saved at [t0] is read back with the
    same fields at [t0 + 10 s] and is absent at [t0 + 31 s]: on the local
    store always; on the remote one when the store answers, the table takes
    the row, the fields are values a column gives back unchanged, and the
    rows already there for the pool are older than [t0]. *)
Theorem C3_freshness_window :
  (forall now pool st d,
     MemoryStorage.prices st !! pool = Some d ->
     30000 < now - MemoryStorage.updated_at d ->
     MemoryStorage.getTokenPrice now pool st = None)
  /\
  (forall now pool st d,
     Supabase.latest (Supabase.rows_of pool st) = Some d ->
     30000 < now - Supabase.updated_at d ->
     Supabase.getTokenPrice now pool st = None)
  /\
  (forall now pool st p,
     MemoryStorage.getTokenPrice now pool st = Some p ->
     exists d, MemoryStorage.prices st !! pool = Some d /\ MemoryStorage.price d = p /\
               now - MemoryStorage.updated_at d <= 30000)
  /\
  (forall now pool st p,
     Supabase.getTokenPrice now pool st = Some p ->
     exists r, r ∈ Supabase.token_prices st /\ Supabase.pool_address r = pool /\
               price_of_row r = p /\ now - Supabase.updated_at r <= 30000)
  /\
  (forall t0 t p st,
     let st' := MemoryStorage.saveTokenPrice t0 t p st in
     MemoryStorage.getTokenPrice (t0 + 10000) (Payload.poolAddress t) st' = Some p /\
     MemoryStorage.getTokenPrice (t0 + 31000) (Payload.poolAddress t) st' = None)
  /\
  (forall t0 t p st,
     Supabase.reachable st = true ->
     table_accepts t p ->
     representable p ->
     Forall (fun r => Supabase.updated_at r < t0)
            (Supabase.rows_of (Payload.poolAddress t) st) ->
     let st' := Supabase.saveTokenPrice t0 t p st in
     Supabase.getTokenPrice (t0 + 10000) (Payload.poolAddress t) st' = Some p /\
     Supabase.getTokenPrice (t0 + 31000) (Payload.poolAddress t) st' = None).
Proof.
  split; [|split; [|split; [|split; [|split]]]].
  - intros now pool st d Hd Hold. rewrite local_read_spec, Hd.
    by rewrite decide_False by lia.
  - intros now pool st d Hd Hold. rewrite remote_read_spec, Hd.
    rewrite decide_False by lia. by destruct (Supabase.reachable st).
  - intros now pool st p. rewrite local_read_spec.
    destruct (MemoryStorage.prices st !! pool) as [d|]; [|done].
    destruct (decide (now - MemoryStorage.updated_at d <= 30000)); [|done].
    intros [= <-]. by exists d.
  - intros now pool st p. rewrite remote_read_spec.
    destruct (Supabase.reachable st); [|done].
    destruct (Supabase.latest (Supabase.rows_of pool st)) as [d|] eqn:Hl; [|done].
    destruct (decide (now - Supabase.updated_at d <= 30000)); [|done].
    intros [= <-]. exists d. apply latest_elem in Hl.
    unfold Supabase.rows_of in Hl. apply list_elem_of_filter in Hl. by destruct Hl.
  - intros t0 t p st st'. subst st'. rewrite !local_read_spec. simpl.
    rewrite lookup_insert_eq. simpl.
    rewrite decide_True by lia. by rewrite decide_False by lia.
  - intros t0 t p st Hup Hacc Hrep Hold st'.
    destruct (remote_save_rows t0 t p st Hup Hacc) as (row & Hst & Hpool & Hat & Hfields).
    subst st'. rewrite !remote_read_spec, Hst. simpl. rewrite Hup.
    unfold Supabase.rows_of. simpl. rewrite filter_app, filter_cons, filter_nil.
    rewrite decide_True by done.
    rewrite latest_snoc by (by rewrite Hat).
    rewrite decide_True by lia. rewrite decide_False by lia.
    by rewrite Hfields, representable_price.
Qed.

End FreshnessTheorem.

Section FreshnessWitness.

Import StoreSpec StoreSamples.

Lemma C3_freshness_window_witness :
  let local := MemoryStorage.saveTokenPrice t0 token_P1 price_1 MemoryStorage.constructor in
  let remote := Supabase.saveTokenPrice t0 token_P1 price_1 remote_up in
  (exists d, MemoryStorage.prices local !! "P1" = Some d /\
             30000 < (t0 + 31000) - MemoryStorage.updated_at d /\
             MemoryStorage.getTokenPrice (t0 + 31000) "P1" local = None)
  /\
  (exists d, Supabase.latest (Supabase.rows_of "P1" remote) = Some d /\
             30000 < (t0 + 31000) - Supabase.updated_at d /\
             Supabase.getTokenPrice (t0 + 31000) "P1" remote = None)
  /\
  (MemoryStorage.getTokenPrice (t0 + 30000) "P1" local = Some price_1 /\
   exists d, MemoryStorage.prices local !! "P1" = Some d /\
             MemoryStorage.price d = price_1 /\
             (t0 + 30000) - MemoryStorage.updated_at d <= 30000)
  /\
  (Supabase.getTokenPrice (t0 + 30000) "P1" remote = Some price_1 /\
   exists r, r ∈ Supabase.token_prices remote /\ Supabase.pool_address r = "P1" /\
             price_of_row r = price_1 /\ (t0 + 30000) - Supabase.updated_at r <= 30000)
  /\
  (Supabase.reachable remote_up = true /\
   table_accepts token_P1 price_1 /\
   representable price_1 /\
   Forall (fun r => Supabase.updated_at r < t0) (Supabase.rows_of "P1" remote_up) /\
   Supabase.getTokenPrice (t0 + 10000) "P1" remote = Some price_1 /\
   Supabase.getTokenPrice (t0 + 31000) "P1" remote = None).
Proof.
  intros local remote.
  destruct C3_freshness_window as (L1 & R1 & L2 & R2 & _ & R3).
  pose (d := {| MemoryStorage.token := token_P1; MemoryStorage.price := price_1;
                MemoryStorage.updated_at := t0 |}).
  pose (r := {| Supabase.token_address := Js.Str "0xT1"; Supabase.pool_address := "P1";
                Supabase.ticker := Js.Str "TKN"; Supabase.name := Js.Str "Token";
                Supabase.price := number 2; Supabase.market_cap := number 1000;
                Supabase.liquidity := number 500; Supabase.volume_24h := number 10;
                Supabase.dex_id := Js.Str "uniswap"; Supabase.updated_at := t0 |}).
  assert (Hd : MemoryStorage.prices local !! "P1" = Some d) by (vm_compute; reflexivity).
  assert (Hrow : Supabase.latest (Supabase.rows_of "P1" remote) = Some r)
    by (vm_compute; reflexivity).
  assert (Hd_old : 30000 < (t0 + 31000) - MemoryStorage.updated_at d)
    by (vm_compute; reflexivity).
  assert (Hr_old : 30000 < (t0 + 31000) - Supabase.updated_at r)
    by (vm_compute; reflexivity).
  assert (Hl : MemoryStorage.getTokenPrice (t0 + 30000) "P1" local = Some price_1)
    by (vm_compute; reflexivity).
  assert (Hr : Supabase.getTokenPrice (t0 + 30000) "P1" remote = Some price_1)
    by (vm_compute; reflexivity).
  assert (Hacc : table_accepts token_P1 price_1) by (repeat split; discriminate).
  assert (Hrep : representable price_1) by (repeat split; reflexivity).
  assert (Hold : Forall (fun r => Supabase.updated_at r < t0) (Supabase.rows_of "P1" remote_up))
    by constructor.
  split; [|split; [|split; [|split]]].
  - exists d. split; [exact Hd|]. split; [exact Hd_old|].
    exact (L1 (t0 + 31000) "P1" local d Hd Hd_old).
  - exists r. split; [exact Hrow|]. split; [exact Hr_old|].
    exact (R1 (t0 + 31000) "P1" remote r Hrow Hr_old).
  - split; [exact Hl|]. exact (L2 _ _ _ _ Hl).
  - split; [exact Hr|]. exact (R2 _ _ _ _ Hr).
  - split; [reflexivity|]. split; [exact Hacc|]. split; [exact Hrep|]. split; [exact Hold|].
    exact (R3 t0 token_P1 price_1 remote_up eq_refl Hacc Hrep Hold).
Defined.

End FreshnessWitness.

(** * Properties of the storage facade *)

Section SyncQueue.

Import StorageService.

Lemma flush_begin_held type now st :
  held type st = true -> flush_begin type now st = None.
Proof. intros H. unfold flush_begin, acquireLock. by rewrite H. Qed.

Lemma processSyncQueue_held type now st :
  held type st = true -> processSyncQueue type now st = st.
Proof. intros H. unfold processSyncQueue. by rewrite flush_begin_held. Qed.

Lemma bucket_enqueue type op st :
  bucket type (enqueue type op st) = bucket type st ++ [op].
Proof. unfold bucket, enqueue. simpl. by rewrite lookup_insert_eq. Qed.

Lemma bucket_enqueue_ne type type' op st :
  type <> type' -> bucket type' (enqueue type op st) = bucket type' st.
Proof. intros Hne. unfold bucket, enqueue. simpl. by rewrite lookup_insert_ne. Qed.

(** A flush that gets the lock empties the bucket, invokes every operation
    that was in it, in order, and gives the lock back. *)
Lemma processSyncQueue_free type now st :
  held type st = false ->
  let st' := processSyncQueue type now st in
  bucket type st' = [] /\
  stores st' = run_operations (bucket type st) now (stores st) /\
  held type st' = false /\
  lastSync st' !! type = Some now /\
  useSupabase st' = useSupabase st /\ storage st' = storage st /\
  syncInterval st' = syncInterval st /\
  (forall k, k <> type -> bucket k st' = bucket k st /\ held k st' = held k st /\
                          lastSync st' !! k = lastSync st !! k).
Proof.
  intros Hfree st'. subst st'.
  unfold processSyncQueue, flush_begin, acquireLock. rewrite Hfree. simpl.
  unfold flush_end, releaseLock, bucket, held. simpl.
  rewrite !lookup_insert_eq, lookup_delete_eq. repeat split; auto.
  - by rewrite lookup_insert_ne.
  - by rewrite lookup_delete_ne, lookup_insert_ne.
  - by rewrite lookup_insert_ne.
Qed.

(** [queueSync]: the operation joins the tail of its bucket; the bucket is
    then flushed, the new operation included, exactly when more than
    [syncInterval] has passed since its last flush and no flush holds the
    lock. *)
Lemma queueSync_cases type op now st :
  let st' := queueSync type op now st in
  let due := syncInterval st <? now - default 0 (lastSync st !! type) in
  (due && negb (held type st) = false ->
   st' = enqueue type op st)
  /\
  (due && negb (held type st) = true ->
   bucket type st' = [] /\
   stores st' = run_operations (bucket type st ++ [op]) now (stores st) /\
   held type st' = false /\
   lastSync st' !! type = Some now /\
   useSupabase st' = useSupabase st /\ storage st' = storage st).
Proof.
  intros st' due. subst st' due. unfold queueSync.
  change (syncInterval (enqueue type op st)) with (syncInterval st).
  change (lastSync (enqueue type op st)) with (lastSync st).
  destruct (syncInterval st <? now - default 0 (lastSync st !! type)); simpl.
  - destruct (held type st) eqn:Hh; simpl; split; try discriminate.
    + intros _. by apply processSyncQueue_held.
    + intros _.
      destruct (processSyncQueue_free type now (enqueue type op st) Hh)
        as (H1 & H2 & H3 & H4 & H5 & H6 & _).
      rewrite bucket_enqueue in H2. by repeat split.
  - split; [done|discriminate].
Qed.

(** Seen from the bucket and the stores. *)
Lemma queueSync_outcome type op now st :
  let st' := queueSync type op now st in
  (bucket type st' = bucket type st ++ [op] /\ stores st' = stores st)
  \/
  (bucket type st' = [] /\
   stores st' = run_operations (bucket type st ++ [op]) now (stores st) /\
   syncInterval st < now - default 0 (lastSync st !! type) /\ held type st = false).
Proof.
  intros st'.
  destruct (queueSync_cases type op now st) as [Hkeep Hflush].
  destruct (syncInterval st <? now - default 0 (lastSync st !! type)) eqn:Hdue;
    destruct (held type st) eqn:Hheld; simpl in *.
  1,3,4: left; subst st'; rewrite (Hkeep eq_refl); by rewrite bucket_enqueue.
  right. destruct (Hflush eq_refl) as (H1 & H2 & _). subst st'.
  repeat split; auto. by apply Z.ltb_lt.
Qed.

Lemma run_operations_app ops1 ops2 now s :
  run_operations (ops1 ++ ops2) now s = run_operations ops2 now (run_operations ops1 now s).
Proof. unfold run_operations. by rewrite foldl_app. Qed.

End SyncQueue.

Section Validation.

Import StorageService FacadeSpec.

Lemma truthy_number v :
  Js.truthy v && is_type "number" v = nonzero_number v.
Proof.
  destruct v as [| |[]|[|q|]|s|]; unfold is_type; simpl;
    rewrite ?andb_true_r, ?andb_false_r; done.
Qed.

Lemma truthy_string v :
  Js.truthy v && is_type "string" v = nonempty_string v.
Proof.
  destruct v as [| |[]|[|q|]|s|]; unfold is_type; simpl;
    rewrite ?andb_true_r, ?andb_false_r; done.
Qed.

Lemma get_falsy d k : Js.truthy d = false -> Js.get d k = Js.Undefined.
Proof. by destruct d as [| |[]|[|q|]|s|]. Qed.

(** What the three checks of [validateData] come to. *)
Lemma validateData_price d :
  validateData d "price" =
    nonzero_number (Js.get d "price") && nonzero_number (Js.get d "marketCap")
    && nonzero_number (Js.get d "liquidity").
Proof.
  unfold validateData. destruct (Js.truthy d) eqn:Ht; simpl.
  - rewrite <- !truthy_number. by rewrite <- !andb_assoc.
  - by rewrite !(get_falsy d _ Ht).
Qed.

Lemma validateData_token d :
  validateData d "token" =
    nonempty_string (Js.get d "address") && nonempty_string (Js.get d "poolAddress")
    && nonempty_string (Js.get d "ticker").
Proof.
  unfold validateData. destruct (Js.truthy d) eqn:Ht; simpl.
  - rewrite <- !truthy_string. by rewrite <- !andb_assoc.
  - by rewrite !(get_falsy d _ Ht).
Qed.

Lemma validateData_config key v :
  validateData (Js.Obj [("key", key); ("value", v)]) "config" =
    nonempty_string key && negb (Js.is_undefined v).
Proof. unfold validateData. simpl. by rewrite <- truthy_string. Qed.

Lemma validateData_other d type :
  type <> "price" -> type <> "token" -> type <> "config" -> validateData d type = false.
Proof.
  intros H1 H2 H3. unfold validateData. destruct (Js.truthy d); simpl; [|done].
  apply String.eqb_neq in H1. apply String.eqb_neq in H2. apply String.eqb_neq in H3.
  by rewrite H1, H2, H3.
Qed.

(** A token that passed the check has a string for its pool address. *)
Lemma validated_token d :
  validateData d "token" = true -> is_Some (Payload.as_token d).
Proof.
  rewrite validateData_token. intros H.
  apply andb_prop in H as [H _]. apply andb_prop in H as [_ H].
  unfold Payload.as_token. destruct (Js.get d "poolAddress"); done.
Qed.

Lemma validated_key key v :
  validateData (Js.Obj [("key", key); ("value", v)]) "config" = true ->
  exists k, key = Js.Str k.
Proof.
  rewrite validateData_config. intros H. apply andb_prop in H as [H _].
  destruct key; try done. eauto.
Qed.

End Validation.

Section Availability.

Import StorageService FacadeSpec.

Lemma available_saveTokenPrice now tok p r :
  Supabase.available (Supabase.saveTokenPrice now tok p r) = Supabase.available r.
Proof.
  unfold Supabase.saveTokenPrice.
  by match goal with |- context [if ?b then _ else _] => destruct b end.
Qed.

Lemma available_ensureInitialized r :
  Supabase.available (Supabase.ensureInitialized r) = Supabase.available r.
Proof.
  unfold Supabase.ensureInitialized.
  destruct (negb (Supabase.available r)); [done|].
  by destruct (negb (Supabase.initialized r)).
Qed.

Lemma available_updateConfig now key v r :
  Supabase.available (fst (Supabase.updateConfig now key v r)) = Supabase.available r.
Proof.
  unfold Supabase.updateConfig.
  destruct v; simpl; try apply available_ensureInitialized;
    destruct (Supabase.reachable (Supabase.ensureInitialized r)); simpl;
    apply available_ensureInitialized.
Qed.

Lemma available_clearHistory pool r :
  Supabase.available (fst (Supabase.clearHistory pool r)) = Supabase.available r.
Proof. unfold Supabase.clearHistory. by destruct (Supabase.reachable r). Qed.

Lemma sync_price_keeps tok p : keeps_availability (sync_price tok p).
Proof. by intros now s. Qed.

Lemma sync_config_keeps key v : keeps_availability (sync_config key v).
Proof. intros now s. simpl. apply available_updateConfig. Qed.

Lemma available_run_operations ops now : forall s,
  Forall keeps_availability ops ->
  Supabase.available (supabase (run_operations ops now s)) = Supabase.available (supabase s).
Proof.
  induction ops as [|op ops IH]; intros s Hall; [done|].
  apply Forall_cons in Hall as [Hop Hall].
  change (run_operations (op :: ops) now s)
    with (run_operations ops now (invoke op now s)).
  rewrite IH by done. apply Hop.
Qed.

Lemma processSyncQueue_local type now st :
  local_and_unavailable st -> local_and_unavailable (processSyncQueue type now st).
Proof.
  intros (Ha & Hm & Hb). destruct (held type st) eqn:Hh.
  { by rewrite processSyncQueue_held. }
  destruct (processSyncQueue_free type now st Hh)
    as (H1 & H2 & _ & _ & H5 & _ & _ & H8).
  repeat split.
  - unfold isSupabaseAvailable, Supabase.isAvailable in *.
    rewrite H2, available_run_operations; [done|apply Hb].
  - by rewrite H5.
  - intros k. destruct (decide (k = type)) as [->|Hne].
    + rewrite H1. constructor.
    + destruct (H8 k Hne) as [-> _]. apply Hb.
Qed.

Lemma enqueue_local type op st :
  keeps_availability op -> local_and_unavailable st ->
  local_and_unavailable (enqueue type op st).
Proof.
  intros Hop (Ha & Hm & Hb). repeat split; auto.
  intros k. destruct (decide (type = k)) as [<-|Hne].
  - rewrite bucket_enqueue. apply Forall_app. split; [apply Hb|by constructor].
  - rewrite bucket_enqueue_ne by done. apply Hb.
Qed.

Lemma queueSync_local type op now st :
  keeps_availability op -> local_and_unavailable st ->
  local_and_unavailable (queueSync type op now st).
Proof.
  intros Hop Hst. unfold queueSync.
  destruct (syncInterval (enqueue type op st) <? _).
  - apply processSyncQueue_local. by apply enqueue_local.
  - by apply enqueue_local.
Qed.

Lemma perform_local st c :
  call_keeps_availability c -> local_and_unavailable st ->
  local_and_unavailable (perform st c).
Proof.
  intros Hc Hst. pose proof Hst as (Ha & Hm & Hb).
  destruct c as [now token price|now key value|b|pool|type op now|type now]; simpl.
  - unfold saveTokenPrice.
    destruct (negb (validateData token "token") || negb (validateData price "price"));
      [done|].
    destruct (Payload.as_token token) as [tok|]; [|done].
    unfold storage_saveTokenPrice.
    destruct (storage st); simpl; rewrite Hm; simpl; repeat split; auto.
    unfold isSupabaseAvailable, Supabase.isAvailable. simpl.
    by rewrite available_saveTokenPrice.
  - unfold updateConfig.
    destruct (negb (validateData _ "config")); [done|].
    destruct key; try done. simpl. rewrite Hm. by repeat split.
  - unfold setStorageMode. destruct b; simpl.
    + by rewrite Ha.
    + repeat split; auto.
  - unfold clearHistory. destruct (storage st); simpl.
    + destruct (Supabase.clearHistory pool (supabase (stores st))) as [r ok] eqn:Hclear.
      simpl. repeat split; auto.
      unfold isSupabaseAvailable, Supabase.isAvailable. simpl.
      change r with (fst (r, ok)). rewrite <- Hclear. by rewrite available_clearHistory.
    + by repeat split.
  - by apply queueSync_local.
  - by apply processSyncQueue_local.
Qed.

Lemma run_calls_local calls : forall st,
  Forall call_keeps_availability calls -> local_and_unavailable st ->
  local_and_unavailable (run_calls calls st).
Proof.
  induction calls as [|c calls IH]; intros st Hall Hst; [done|].
  apply Forall_cons in Hall as [Hc Hall].
  change (run_calls (c :: calls) st) with (run_calls calls (perform st c)).
  apply IH; [done|]. by apply perform_local.
Qed.

End Availability.

Section FacadeTheorems.

Import StorageService FacadeSpec FacadeSamples StoreSamples.

(** The object behind [this.storage] is the one the constructor chose:
    no method assigns the field. *)
Lemma storage_processSyncQueue type now st :
  storage (processSyncQueue type now st) = storage st.
Proof.
  destruct (held type st) eqn:Hh.
  - by rewrite processSyncQueue_held.
  - by destruct (processSyncQueue_free type now st Hh) as (_ & _ & _ & _ & _ & H & _).
Qed.

Lemma storage_queueSync type op now st :
  storage (queueSync type op now st) = storage st.
Proof.
  unfold queueSync.
  destruct (syncInterval (enqueue type op st) <? _); [|done].
  by rewrite storage_processSyncQueue.
Qed.

Lemma storage_perform st c : storage (perform st c) = storage st.
Proof.
  destruct c as [now token price|now key value|b|pool|type op now|type now]; simpl.
  - unfold saveTokenPrice.
    destruct (negb (validateData token "token") || negb (validateData price "price"));
      [done|].
    destruct (Payload.as_token token) as [tok|]; [|done].
    unfold storage_saveTokenPrice.
    destruct (storage st) eqn:Hs; simpl;
      match goal with |- context [if ?b then _ else _] => destruct b end;
      rewrite ?storage_queueSync; simpl; done.
  - unfold updateConfig.
    destruct (negb (validateData _ "config")); [done|].
    destruct key; try done. simpl.
    destruct (useSupabase st); rewrite ?storage_queueSync; done.
  - unfold setStorageMode. by destruct (b && negb (isSupabaseAvailable st)).
  - unfold clearHistory. destruct (storage st) eqn:Hs; simpl; [|done].
    by destruct (Supabase.clearHistory pool (supabase (stores st))).
  - apply storage_queueSync.
  - apply storage_processSyncQueue.
Qed.

Lemma storage_run_calls calls : forall st, storage (run_calls calls st) = storage st.
Proof.
  induction calls as [|c calls IH]; intros st; [done|].
  change (run_calls (c :: calls) st) with (run_calls calls (perform st c)).
  by rewrite IH, storage_perform.
Qed.




(** What the second configuration write leaves behind. *)
Example pending_remote_copy :
  let st := Js.final_state
              (updateConfig (t0 + 1000) (Js.Str "ui_mode") (Js.Str "buttons")
                            after_first_config) in
  useSupabase st = true /\
  MemoryStorage.config (memory (stores st)) !! "ui_mode" = Some (Js.Str "buttons") /\
  Supabase.bot_config (supabase (stores st)) !! "ui_mode" = None /\
  bucket "config" st = [sync_config "ui_mode" (Js.Str "buttons")].
Proof. vm_compute. repeat split. Qed.

(** C2 fails on the code.  After [setStorageMode(false)] the mode is local,
    and reads still go to the remote store: the price the local store holds
    is not returned.  Whatever calls were made since the facade was
    constructed, mode switches among them, the delegating methods use the
    store the constructor chose. *)
Theorem C2_local_mode_reads_remote :
  useSupabase degraded = false /\
  getStorageMode degraded = "memory" /\
  MemoryStorage.getTokenPrice (t0 + 10000) "P1" (memory (stores degraded)) = Some price_1 /\
  getTokenPrice (t0 + 10000) "P1" degraded = None /\
  (forall calls s now pool limit,
     let st := run_calls calls (constructor s) in
     getTokenPrice now pool st =
       Supabase.getTokenPrice now pool (supabase (stores st)) /\
     getPriceHistory pool limit st =
       Supabase.getPriceHistory pool limit (supabase (stores st)) /\
     snd (clearHistory pool st) = snd (Supabase.clearHistory pool (supabase (stores st))) /\
     memory (stores (fst (clearHistory pool st))) = memory (stores st)).
Proof.
  split; [reflexivity|]. split; [reflexivity|].
  split; [vm_compute; reflexivity|]. split; [vm_compute; reflexivity|].
  intros calls s now pool limit st.
  assert (Hs : storage st = SupabaseStore) by (subst st; by rewrite storage_run_calls).
  unfold getTokenPrice, getPriceHistory, clearHistory. rewrite Hs.
  destruct (Supabase.clearHistory pool (supabase (stores st))). by repeat split.
Qed.

(** C7.  While the remote store reports unavailable, [setStorageMode(true)]
    returns with the state as it was, so a second call changes nothing
    either; and a facade in local mode stays in local mode, with the probe
    still failing, through any sequence of calls. *)
Theorem C7_refused_switch (st : State) :
  isSupabaseAvailable st = false ->
  setStorageMode true st = st /\
  setStorageMode true (setStorageMode true st) = setStorageMode true st /\
  (useSupabase st = false ->
   buckets_keep_availability st ->
   forall calls, Forall call_keeps_availability calls ->
     useSupabase (run_calls calls st) = false /\
     isSupabaseAvailable (run_calls calls st) = false).
Proof.
  intros Hdown.
  assert (Hrefused : setStorageMode true st = st)
    by (unfold setStorageMode; by rewrite Hdown).
  split; [exact Hrefused|]. split; [by rewrite !Hrefused|].
  intros Hlocal Hbuckets calls Hcalls.
  destruct (run_calls_local calls st Hcalls) as (H1 & H2 & _); [by repeat split|].
  by split.
Qed.

Lemma C7_refused_switch_witness :
  let st := setStorageMode false fresh_unavailable in
  let calls := [CallSetStorageMode true;
                CallUpdateConfig t0 (Js.Str "ui_mode") (Js.Str "text");
                CallSaveTokenPrice (t0 + 1) token_js price_js;
                CallSetStorageMode true] in
  isSupabaseAvailable fresh_unavailable = false /\
  setStorageMode true fresh_unavailable = fresh_unavailable /\
  isSupabaseAvailable st = false /\
  useSupabase st = false /\
  buckets_keep_availability st /\
  Forall call_keeps_availability calls /\
  useSupabase (run_calls calls st) = false.
Proof.
  intros st calls.
  assert (Hb : buckets_keep_availability st) by (intros type; constructor).
  assert (Hc : Forall call_keeps_availability calls) by (repeat constructor).
  split; [reflexivity|]. split; [|split; [reflexivity|split; [reflexivity|]]].
  - apply (C7_refused_switch fresh_unavailable). reflexivity.
  - split; [exact Hb|]. split; [exact Hc|].
    apply (proj2 (proj2 (C7_refused_switch st eq_refl)) eq_refl Hb calls Hc).
Defined.

End FacadeTheorems.

Section FacadeTheorems2.

Import StorageService FacadeSpec FacadeSamples StoreSamples.

(** C8, as the code has it.  A price write is accepted exactly when the
    token's [address], [poolAddress] and [ticker] are non-empty strings and
    the price's [price], [marketCap] and [liquidity] are numbers other than
    [NaN] and zero; a configuration write exactly when the key is a
    non-empty string and the value is not [undefined].  A write that is not
    accepted throws its invalid-data error with the facade and both stores
    as they were. *)
Theorem C8_shape_check (now : Z) (st : State) :
  (forall token price,
     let ok := nonempty_string (Js.get token "address")
               && nonempty_string (Js.get token "poolAddress")
               && nonempty_string (Js.get token "ticker")
               && (nonzero_number (Js.get price "price")
                   && nonzero_number (Js.get price "marketCap")
                   && nonzero_number (Js.get price "liquidity")) in
     (ok = false ->
      saveTokenPrice now token price st =
        Js.Threw st (Js.new_Error "Invalid data for saving price"))
     /\
     (ok = true -> exists st' result,
        saveTokenPrice now token price st = Js.Returned st' result))
  /\
  (forall key v,
     let ok := nonempty_string key && negb (Js.is_undefined v) in
     (ok = false ->
      updateConfig now key v st = Js.Threw st (Js.new_Error "Invalid configuration data"))
     /\
     (ok = true -> exists st', updateConfig now key v st = Js.Returned st' true)).
Proof.
  split.
  - intros token price ok. subst ok.
    rewrite <- validateData_token, <- validateData_price.
    unfold saveTokenPrice.
    destruct (validateData token "token") eqn:Ht;
      destruct (validateData price "price") eqn:Hp; simpl; split; try done.
    intros _. destruct (validated_token token Ht) as [tok ->].
    destruct (storage_saveTokenPrice now tok (Payload.as_price price) st) as [st1 result].
    eauto.
  - intros key v ok. subst ok. rewrite <- validateData_config.
    unfold updateConfig.
    destruct (validateData (Js.Obj [("key", key); ("value", v)]) "config") eqn:Hv;
      simpl; split; try done.
    intros _. destruct (validated_key key v Hv) as [k ->]. eauto.
Qed.

Lemma C8_shape_check_witness :
  (nonempty_string (Js.get token_js "address")
   && nonempty_string (Js.get token_js "poolAddress")
   && nonempty_string (Js.get token_js "ticker")
   && (nonzero_number (Js.get price_js_no_liquidity "price")
       && nonzero_number (Js.get price_js_no_liquidity "marketCap")
       && nonzero_number (Js.get price_js_no_liquidity "liquidity")) = false /\
   saveTokenPrice t0 token_js price_js_no_liquidity fresh =
     Js.Threw fresh (Js.new_Error "Invalid data for saving price"))
  /\
  (nonempty_string (Js.get token_js "address")
   && nonempty_string (Js.get token_js "poolAddress")
   && nonempty_string (Js.get token_js "ticker")
   && (nonzero_number (Js.get price_js "price")
       && nonzero_number (Js.get price_js "marketCap")
       && nonzero_number (Js.get price_js "liquidity")) = true /\
   exists st' result, saveTokenPrice t0 token_js price_js fresh = Js.Returned st' result)
  /\
  (nonempty_string (Js.Str "") && negb (Js.is_undefined (Js.Str "x")) = false /\
   updateConfig t0 (Js.Str "") (Js.Str "x") fresh =
     Js.Threw fresh (Js.new_Error "Invalid configuration data"))
  /\
  (nonempty_string (Js.Str "ui_mode") && negb (Js.is_undefined (Js.Str "text")) = true /\
   exists st', updateConfig t0 (Js.Str "ui_mode") (Js.Str "text") fresh = Js.Returned st' true).
Proof.
  split; [|split; [|split]]; (split; [reflexivity|]).
  - apply (proj1 (proj1 (C8_shape_check t0 fresh) token_js price_js_no_liquidity)).
    reflexivity.
  - apply (proj2 (proj1 (C8_shape_check t0 fresh) token_js price_js)). reflexivity.
  - apply (proj1 (proj2 (C8_shape_check t0 fresh) (Js.Str "") (Js.Str "x"))). reflexivity.
  - apply (proj2 (proj2 (C8_shape_check t0 fresh) (Js.Str "ui_mode") (Js.Str "text"))).
    reflexivity.
Defined.

(** C8, as the specification words it, does not hold: a price for a pool
    without liquidity has every required field and only true numbers, and
    is refused. *)
Lemma C8_counterexample : ~ spec_well_shaped_accepted.
Proof.
  intros H.
  specialize (H t0 token_js price_js_no_liquidity fresh eq_refl eq_refl).
  vm_compute in H. discriminate.
Qed.




Example late_work_left_pending :
  exists st, late_work_scenario = Some st /\
    remote_config_is "sort_criteria" (Js.Str "liq") st /\
    Supabase.bot_config (supabase (stores st)) !! "ui_mode" = None /\
    bucket "config" st = [op_B] /\
    held "config" st = false.
Proof.
  eexists. split; [reflexivity|]. split; [|vm_compute; repeat split].
  eexists. split; vm_compute; reflexivity.
Qed.

(** C10.  A [processQueue] call that passes the re-entrancy guard completes
    — it returns, or rejects when an exception left the loop — and leaves
    [processing] false in both cases.  A [processSyncQueue] call that finds
    the lock of its type free leaves it free, whatever the operations of the
    bucket did. *)
Theorem C10_guards_released :
  (forall now st,
     PriceQueue.processing st = false ->
     exists st' now' ex,
       PriceQueue.processQueue_exit now st = (st', now', Some ex) /\
       ex <> PriceQueue.OutOfFuel /\
       Js.final_state (PriceQueue.processQueue now st) = st' /\
       PriceQueue.processing st' = false)
  /\
  (forall type now st,
     held type st = false ->
     held type (processSyncQueue type now st) = false).
Proof.
  split.
  - intros now st Hidle.
    destruct (processQueue_run now st Hidle) as (st1 & now1 & ex & _ & Hfuel & Hexit & Hfin).
    exists (PriceQueue.set_processing false st1), now1, ex. by repeat split.
  - intros type now st Hfree.
    by destruct (processSyncQueue_free type now st Hfree) as (_ & _ & H & _).
Qed.

Lemma C10_guards_released_witness :
  let q := PriceQueue.set_queue [QueueSamples.sample_item]
             (PriceQueue.exported [throwing_handler]) in
  let f := enqueue "config" op_B (enqueue "config" failing_operation fresh) in
  PriceQueue.processing q = false /\
  PriceQueue.processing (Js.final_state (PriceQueue.processQueue t0 q)) = false /\
  held "config" f = false /\
  held "config" (processSyncQueue "config" t0 f) = false.
Proof.
  intros q f.
  split; [reflexivity|]. split; [|split; [reflexivity|]].
  - destruct (proj1 C10_guards_released t0 q eq_refl) as (st' & now' & ex & _ & _ & <- & H).
    exact H.
  - apply (proj2 C10_guards_released "config" t0 f). reflexivity.
Defined.

(** A handler that throws [null]: the drain rejects, the item is gone, the
    flag is down. *)
Example drain_rejects_flag_down :
  let q := PriceQueue.set_queue [QueueSamples.sample_item]
             (PriceQueue.exported [throwing_handler]) in
  exists st' e,
    PriceQueue.processQueue t0 q = Js.Threw st' e /\
    PriceQueue.processing st' = false /\ PriceQueue.queue st' = [] /\
    PriceQueue.failedItems st' = ∅.
Proof. eexists _, _. split; [vm_compute; reflexivity|]. by repeat split. Qed.

(** An operation that throws half-way: what it did stays, the next
    operation of the bucket runs, the lock is released. *)
Example flush_survives_failing_operation :
  let st := processSyncQueue "config" t0
              (enqueue "config" op_B (enqueue "config" failing_operation fresh)) in
  held "config" st = false /\ bucket "config" st = [] /\
  MemoryStorage.config (memory (stores st)) !! "half" = Some (Js.Str "done") /\
  remote_config_is "ui_mode" (Js.Str "buttons") st.
Proof.
  split; [reflexivity|]. split; [reflexivity|]. split; [vm_compute; reflexivity|].
  eexists. split; vm_compute; reflexivity.
Qed.

End FacadeTheorems2.

(** * Further properties of the update queue *)

Section QueueAttempts.

Import PriceQueue QueueSpec QueueMore.

Lemma first_sync_throw_None os :
  first_sync_throw os = None <-> Forall (fun o => forall v, o <> ThrowsSync v) os.
Proof.
  unfold first_sync_throw. induction os as [|o os IH]; simpl.
  - split; [constructor|done].
  - destruct o as [v|d|d|]; simpl.
    + split; [done|]. intros H. apply Forall_cons in H as [H _]. by destruct (H v).
    + rewrite IH. split; [by constructor|by intros [_ ?]%Forall_cons].
    + rewrite IH. split; [by constructor|by intros [_ ?]%Forall_cons].
    + rewrite IH. split; [by constructor|by intros [_ ?]%Forall_cons].
Qed.

Lemma settle_true T o :
  fst (settle T o) = true <-> exists t, o = Resolves t /\ Z.max t 0 <= Z.max T 0.
Proof.
  destruct o as [v|d|d|]; simpl.
  - split; [done|]. by intros (t & ? & _).
  - destruct (Z.leb_spec (Z.max d 0) (Z.max T 0)); simpl; split; try done.
    + eauto.
    + intros (t & [= <-] & ?). lia.
  - destruct (Z.max d 0 <=? Z.max T 0); simpl; (split; [done|]); by intros (t & ? & _).
  - split; [done|]. by intros (t & ? & _).
Qed.

Lemma processItem_success (st : State) (now : Z) (it : Item) :
  (exists d, processItem st now it = inl d) <->
  Forall (fulfils_in_time (handlerTimeout st) now (data it)) (handlers st).
Proof.
  unfold processItem.
  set (outcomes := map (fun h : Handler => h now (data it)) (handlers st)).
  assert (Hall : Forall (fulfils_in_time (handlerTimeout st) now (data it)) (handlers st)
                 <-> Forall (fun o => fst (settle (handlerTimeout st) o) = true) outcomes).
  { subst outcomes. rewrite !Forall_forall. split.
    - intros H o Ho. apply list_elem_of_In, in_map_iff in Ho as (h & <- & Hh).
      apply settle_true. apply H. by apply list_elem_of_In.
    - intros H h Hh. apply settle_true. apply H.
      apply list_elem_of_In, in_map_iff. exists h. split; [done|]. by apply list_elem_of_In. }
  rewrite Hall. clear Hall.
  destruct (first_sync_throw outcomes) as [v|] eqn:Hthrow.
  - split; [by intros (d & ?)|]. intros H. exfalso.
    assert (Hnone : first_sync_throw outcomes = None); [|congruence].
    apply first_sync_throw_None. rewrite Forall_forall in *. intros o Ho v' ->.
    specialize (H _ Ho). done.
  - set (results := map (settle (handlerTimeout st)) outcomes).
    assert (Hfilter : filter (fun r : bool * Z => fst r = false) results = []
                      <-> Forall (fun o => fst (settle (handlerTimeout st) o) = true) outcomes).
    { subst results. clear Hthrow. induction outcomes as [|o os IH]; simpl.
      - split; [constructor|done].
      - rewrite filter_cons. destruct (decide (fst (settle (handlerTimeout st) o) = false)) as [Hf|Hf].
        + split; [done|]. intros [H _]%Forall_cons. congruence.
        + rewrite IH. apply not_false_is_true in Hf.
          split; [by constructor|by intros [_ ?]%Forall_cons]. }
    destruct (filter (fun r : bool * Z => fst r = false) results) as [|r rs] eqn:Hf; simpl.
    + split; [intros _; by apply Hfilter|eauto].
    + split; [by intros (d & ?)|]. intros H. by apply Hfilter in H.
Qed.

(** X1.  An attempt at an item succeeds exactly when every registered
    handler fulfils its promise no later than the handler timeout (the
    handler is called before the timeout timer is armed, so a handler that
    fulfils at the very instant of the timeout still wins the race); one
    handler that throws, rejects, is later than that or never settles fails
    the item.  With no handler registered every attempt succeeds at once. *)
Theorem processItem_succeeds_iff (st : State) (now : Z) (it : Item) :
  (exists d, processItem st now it = inl d) <->
  Forall (fulfils_in_time (handlerTimeout st) now (data it)) (handlers st).
Proof. exact (processItem_success st now it). Qed.

End QueueAttempts.

Section QueueSessions.

Import PriceQueue QueueSpec QueueMore.

(** The loop changes none of the limits. *)
Lemma drain_limits fuel : forall start now st st' now' ex,
  drain fuel start now st = (st', now', ex) ->
  maxQueueSize st' = maxQueueSize st /\ processingTimeout st' = processingTimeout st /\
  handlerTimeout st' = handlerTimeout st /\ maxRetries st' = maxRetries st /\
  handlers st' = handlers st.
Proof.
  induction fuel as [|fuel IH]; intros start now st st' now' ex; simpl;
    destruct (queue st) as [|h rest] eqn:Hq.
  1,3: by intros [= <- <- <-].
  1,2: destruct (processingTimeout st <? now - start); [by intros [= <- <- <-]|].
  - by intros [= <- <- <-].
  - destruct (processItem (set_queue rest st) now h) as [d|[e d]] eqn:Hp.
    + intros Hd. by apply IH in Hd.
    + destruct (handleFailedItem (now + d) h e (set_queue rest st)) as [st2 u|st2 e'] eqn:Hh.
      * intros Hd. apply IH in Hd as (H1 & H2 & H3 & H4 & H5).
        apply handleFailedItem_returned in Hh. simpl in Hh.
        destruct Hh as (m & _ & G1 & G2 & G3 & G4 & G5 & _).
        rewrite H1, H2, H3, H4, H5. by repeat split.
      * intros [= <- <- <-]. apply handleFailedItem_threw in Hh as (_ & ->). done.
Qed.

(** The clock at the end of the loop: it has not gone back, and it is past
    the session's limit by one attempt at most. *)
Lemma drain_clock fuel : forall start now st st' now' ex,
  drain fuel start now st = (st', now', ex) ->
  now <= now' /\
  now' - start <= Z.max (now - start) (processingTimeout st + attempt_limit st).
Proof.
  induction fuel as [|fuel IH]; intros start now st st' now' ex; simpl;
    destruct (queue st) as [|h rest] eqn:Hq.
  1,3: intros [= <- <- <-]; lia.
  1,2: destruct (Z.ltb_spec (processingTimeout st) (now - start));
       [intros [= <- <- <-]; lia|].
  - intros [= <- <- <-]; lia.
  - pose proof (processItem_duration (set_queue rest st) now h) as Hdur.
    unfold attempt_limit in *. simpl in Hdur.
    destruct (processItem (set_queue rest st) now h) as [d|[e d]] eqn:Hp.
    + intros Hd. apply IH in Hd. simpl in Hd. lia.
    + destruct (handleFailedItem (now + d) h e (set_queue rest st)) as [st2 u|st2 e'] eqn:Hh.
      * intros Hd. apply IH in Hd.
        apply handleFailedItem_returned in Hh. simpl in Hh.
        destruct Hh as (m & _ & _ & _ & G3 & G4 & _). rewrite G3, G4 in Hd. lia.
      * intros [= <- <- <-]. lia.
Qed.

(** X2.  A drain session lasts at most the session timeout plus one handler
    timeout: the session limit is looked at before each item, and an item
    takes a handler timeout at most. *)
Theorem processQueue_session_bounded (now : Z) (st : State) :
  let '(_, now', _) := processQueue_exit now st in
  now <= now' /\
  now' - now <= Z.max 0 (processingTimeout st + Z.max (handlerTimeout st) 0).
Proof.
  unfold processQueue_exit. destruct (processing st); [lia|].
  destruct (drain _ now now (set_processing true st)) as [[st1 now1] ex] eqn:Hd.
  apply drain_clock in Hd. unfold attempt_limit in Hd. simpl in Hd. lia.
Qed.

(** Nothing is lost from the books of the loop: what leaves the queue is
    counted as processed, logged as failed, or — once, when an exception
    ends the loop — dropped. *)
Lemma drain_conserves fuel : forall start now st st' now' ex,
  drain fuel start now st = (st', now', ex) ->
  NoDup (ids (queue st)) ->
  (forall k, k ∈ ids (queue st) -> failedItems st !! k = None) ->
  Z.of_nat (length (queue st)) + processed (stats st) + Z.of_nat (size (failedItems st)) =
  Z.of_nat (length (queue st')) + processed (stats st') + Z.of_nat (size (failedItems st'))
  + (if ex is Aborted _ then 1 else 0).
Proof.
  induction fuel as [|fuel IH]; intros start now st st' now' ex; simpl;
    destruct (queue st) as [|h rest] eqn:Hq.
  1,3: intros [= <- <- <-] _ _; rewrite Hq; simpl; lia.
  1,2: destruct (processingTimeout st <? now - start);
       [intros [= <- <- <-] _ _; simpl; rewrite Hq; simpl; lia|].
  - intros [= <- <- <-] _ _; rewrite Hq; simpl; lia.
  - intros Hd Hnd Hfresh. simpl in Hnd. apply NoDup_cons in Hnd as [Hh_fresh Hnd].
    destruct (processItem (set_queue rest st) now h) as [d|[e d]] eqn:Hp.
    + apply IH in Hd; simpl in *; [lia|done|].
      intros k Hk. apply Hfresh. by right.
    + destruct (handleFailedItem (now + d) h e (set_queue rest st)) as [st2 u|st2 e'] eqn:Hh.
      * apply handleFailedItem_returned in Hh as Hh'. simpl in Hh'.
        destruct Hh' as (m & _ & _ & _ & _ & _ & _ & _ & Hcase).
        assert (Hproc : processed (stats st2) = processed (stats st)).
        { revert Hh. unfold handleFailedItem. simpl.
          destruct (retries h <? maxRetries st); destruct (Js.read_message e);
            intros [= <-]; done. }
        destruct Hcase as [(_ & Hq2 & Hf2 & _)|(_ & Hq2 & Hf2 & _)].
        -- apply IH in Hd.
           ++ rewrite Hq2, Hf2, Hproc, length_app in Hd. simpl in *. lia.
           ++ rewrite Hq2, ids_app. simpl. apply NoDup_app. split; [done|].
              split; [|apply NoDup_singleton].
              intros x Hx Hx'. apply list_elem_of_singleton in Hx'. by subst.
           ++ intros k Hk. rewrite Hf2. apply Hfresh.
              rewrite Hq2, ids_app in Hk. simpl in *. set_solver.
        -- apply IH in Hd.
           ++ rewrite Hq2, Hf2, Hproc in Hd.
              rewrite map_size_insert_None in Hd by (apply Hfresh; by left).
              simpl in *. lia.
           ++ by rewrite Hq2.
           ++ intros k Hk. rewrite Hq2 in Hk. rewrite Hf2.
              rewrite lookup_insert_ne by set_solver. apply Hfresh. by right.
      * apply handleFailedItem_threw in Hh as (_ & ->).
        injection Hd as <- <- <-. simpl. lia.
Qed.

(** X3.  A drain on an idle queue whose ids are distinct and not in the
    failure log conserves the items: each item that was pending is still
    pending, was counted as processed, or is in the failure log — except
    that a call that rejects (a handler threw [null] or [undefined]) has
    dropped one item. *)
Theorem processQueue_conserves_items (now : Z) (st : State) :
  processing st = false ->
  NoDup (ids (queue st)) ->
  (forall k, k ∈ ids (queue st) -> failedItems st !! k = None) ->
  let c := processQueue now st in
  let st' := Js.final_state c in
  Z.of_nat (length (queue st)) =
    Z.of_nat (length (queue st'))
    + (processed (stats st') - processed (stats st))
    + (Z.of_nat (size (failedItems st')) - Z.of_nat (size (failedItems st)))
    + (if rejected c then 1 else 0).
Proof.
  intros Hidle Hnd Hfresh c st'.
  destruct (processQueue_run now st Hidle) as (st1 & now1 & ex & Hd & _ & Hexit & Hfin).
  pose proof (drain_conserves _ _ _ _ _ _ _ Hd Hnd Hfresh) as H. simpl in H.
  subst st' c. rewrite Hfin. unfold processQueue. rewrite Hexit. simpl.
  destruct ex; simpl in *; lia.
Qed.

Lemma three_pending_ids_distinct : NoDup (ids (queue three_pending)).
Proof.
  apply (bool_decide_unpack (NoDup (ids (queue three_pending)))). vm_compute. exact I.
Qed.

End QueueSessions.

Section QueueOrder.

Import PriceQueue QueueSpec QueueMore.

Lemma processQueue_conserves_items_witness :
  processing three_pending = false /\
  NoDup (ids (queue three_pending)) /\
  (forall k, k ∈ ids (queue three_pending) -> failedItems three_pending !! k = None) /\
  let c := processQueue 1700000000000 three_pending in
  let st' := Js.final_state c in
  Z.of_nat (length (queue three_pending)) =
    Z.of_nat (length (queue st'))
    + (processed (stats st') - processed (stats three_pending))
    + (Z.of_nat (size (failedItems st')) - Z.of_nat (size (failedItems three_pending)))
    + (if rejected c then 1 else 0).
Proof.
  assert (H1 : processing three_pending = false) by reflexivity.
  assert (H3 : forall k, k ∈ ids (queue three_pending) ->
                         failedItems three_pending !! k = None)
    by (intros k _; apply lookup_empty).
  split; [exact H1|]. split; [exact three_pending_ids_distinct|]. split; [exact H3|].
  exact (processQueue_conserves_items 1700000000000 three_pending H1
           three_pending_ids_distinct H3).
Defined.

(** With handlers that always succeed the loop takes the items from the
    front, in order, and touches nothing but the count of processed items. *)
Lemma drain_fifo fuel : forall start now st st' now' ex,
  drain fuel start now st = (st', now', ex) ->
  all_succeed st ->
  exists k,
    queue st' = drop k (queue st) /\
    processed (stats st') = processed (stats st) + Z.of_nat k /\
    failedItems st' = failedItems st /\
    failed (stats st') = failed (stats st) /\
    retried (stats st') = retried (stats st) /\
    (k <= length (queue st))%nat /\
    (forall e, ex <> Aborted e) /\
    (ex = QueueEmpty -> k = length (queue st)).
Proof.
  induction fuel as [|fuel IH]; intros start now st st' now' ex; simpl;
    destruct (queue st) as [|h rest] eqn:Hq.
  1,3: intros [= <- <- <-] _; exists 0%nat; rewrite Hq; simpl;
       repeat split; try done; lia.
  1,2: destruct (processingTimeout st <? now - start);
       [intros [= <- <- <-] _; exists 0%nat; simpl; rewrite Hq; simpl;
        repeat split; try done; lia|].
  - intros [= <- <- <-] _. exists 0%nat. rewrite Hq. simpl. repeat split; try done; lia.
  - intros Hd Hok.
    destruct (Hok h now) as (d & Hp); [rewrite Hq; by left|].
    rewrite (processItem_ext (set_queue rest st) st now h h) in Hd by done.
    rewrite Hp in Hd. apply IH in Hd.
    + destruct Hd as (k & H1 & H2 & H3 & H4 & H5 & H6 & H7 & H8). simpl in *.
      exists (S k). simpl. repeat split; auto; try lia.
    + intros it t Hit. simpl in Hit.
      destruct (Hok it t) as (d' & Hd'); [rewrite Hq; by right|].
      exists d'. rewrite <- Hd'. by apply processItem_ext.
Qed.

(** The loop is not stopped by the session limit as long as the items that
    remain, but for the last, fit into what is left of the session at one
    handler timeout apiece. *)
Lemma drain_fifo_all fuel : forall start now st st' now' ex,
  drain fuel start now st = (st', now', ex) ->
  all_succeed st ->
  (budget (maxRetries st) (queue st) <= fuel)%nat ->
  (now - start) + (Z.of_nat (length (queue st)) - 1) * attempt_limit st
    <= processingTimeout st ->
  queue st' = [].
Proof.
  induction fuel as [|fuel IH]; intros start now st st' now' ex; simpl;
    destruct (queue st) as [|h rest] eqn:Hq.
  1,3: intros [= <- <- <-] _ _ _; done.
  - intros _ _ Hb. simpl in Hb. unfold attempts_left in Hb. lia.
  - intros Hd Hok Hb Hfit.
    pose proof (processItem_duration st now h) as Hdur.
    assert (Hlim : 0 <= attempt_limit st) by (unfold attempt_limit; lia).
    destruct (Z.ltb_spec (processingTimeout st) (now - start)) as [Hlate|_].
    { simpl in Hfit. nia. }
    destruct (Hok h now) as (d & Hp); [rewrite Hq; by left|].
    rewrite (processItem_ext (set_queue rest st) st now h h) in Hd by done.
    rewrite Hp in Hd, Hdur. apply IH in Hd; [done| | |].
    + intros it t Hit. simpl in Hit.
      destruct (Hok it t) as (d' & Hd'); [rewrite Hq; by right|].
      exists d'. rewrite <- Hd'. by apply processItem_ext.
    + simpl in *. unfold attempts_left in Hb. lia.
    + change (attempt_limit _) with (attempt_limit st).
      change (processingTimeout _) with (processingTimeout st).
      change (queue _) with rest.
      change (length (h :: rest)) with (S (length rest)) in Hfit.
      rewrite Nat2Z.inj_succ in Hfit. nia.
Qed.

(** X4.  With handlers that always succeed a drain is first in, first out:
    it processes a front part of the queue in order and leaves the rest as
    it was, counting one processed item each and no failure; nothing enters
    the failure log, and the call does not reject.  The whole queue is
    processed when its items but the last fit into the session at one
    handler timeout apiece. *)
Theorem processQueue_fifo (now : Z) (st : State) :
  processing st = false ->
  all_succeed st ->
  let c := processQueue now st in
  let st' := Js.final_state c in
  (exists k,
     queue st' = drop k (queue st) /\
     processed (stats st') = processed (stats st) + Z.of_nat k /\
     (k <= length (queue st))%nat)
  /\ failedItems st' = failedItems st
  /\ failed (stats st') = failed (stats st)
  /\ rejected c = false
  /\ ((Z.of_nat (length (queue st)) - 1) * Z.max (handlerTimeout st) 0
        <= processingTimeout st ->
      queue st' = [] /\
      processed (stats st') = processed (stats st) + Z.of_nat (length (queue st))).
Proof.
  intros Hidle Hok c st'.
  destruct (processQueue_run now st Hidle) as (st1 & now1 & ex & Hd & _ & Hexit & Hfin).
  destruct (drain_fifo _ _ _ _ _ _ _ Hd Hok) as (k & H1 & H2 & H3 & H4 & H5 & H6 & H7 & H8).
  subst st' c. rewrite Hfin. unfold processQueue. rewrite Hexit. simpl in *.
  split; [by exists k|]. split; [done|]. split; [done|]. split.
  { destruct ex; try done. by destruct (H7 e). }
  intros Hfit.
  assert (Hempty : queue st1 = []).
  { eapply (drain_fifo_all _ _ _ _ _ _ _ Hd Hok); simpl; [lia|].
    unfold attempt_limit. simpl. lia. }
  split; [done|]. rewrite H2. f_equal. f_equal.
  assert (Hlen : length (drop k (queue st)) = 0%nat).
  { rewrite <- H1, Hempty. done. }
  rewrite length_drop in Hlen. lia.
Qed.

End QueueOrder.

Section QueueBounds.

Import PriceQueue QueueSpec QueueMore.

Lemma quick_handler_succeeds t st :
  handlers st = [quick_handler t] -> t < handlerTimeout st -> all_succeed st.
Proof.
  intros Hh Ht it now _. apply processItem_success. rewrite Hh.
  constructor; [|constructor]. exists t. split; [done|lia].
Qed.

Lemma processQueue_fifo_witness :
  processing three_pending = false /\
  all_succeed three_pending /\
  (Z.of_nat (length (queue three_pending)) - 1) * Z.max (handlerTimeout three_pending) 0
    <= processingTimeout three_pending /\
  let st' := Js.final_state (processQueue 1700000000000 three_pending) in
  queue st' = [] /\
  processed (stats st') = processed (stats three_pending) + 3.
Proof.
  assert (H1 : processing three_pending = false) by reflexivity.
  assert (H2 : all_succeed three_pending)
    by (apply (quick_handler_succeeds 1000); reflexivity).
  assert (H3 : (Z.of_nat (length (queue three_pending)) - 1)
               * Z.max (handlerTimeout three_pending) 0
               <= processingTimeout three_pending) by (vm_compute; discriminate).
  split; [exact H1|]. split; [exact H2|]. split; [exact H3|].
  exact (proj2 (proj2 (proj2 (proj2
           (processQueue_fifo 1700000000000 three_pending H1 H2)))) H3).
Defined.

(** The loop never leaves the queue longer than it found it. *)
Lemma drain_no_longer fuel : forall start now st st' now' ex,
  drain fuel start now st = (st', now', ex) ->
  (length (queue st') <= length (queue st))%nat.
Proof.
  induction fuel as [|fuel IH]; intros start now st st' now' ex; simpl;
    destruct (queue st) as [|h rest] eqn:Hq.
  1,3: intros [= <- <- <-]; by rewrite Hq.
  1,2: destruct (processingTimeout st <? now - start);
       [intros [= <- <- <-]; simpl; by rewrite Hq|].
  - intros [= <- <- <-]. by rewrite Hq.
  - destruct (processItem (set_queue rest st) now h) as [d|[e d]] eqn:Hp.
    + intros Hd. apply IH in Hd. simpl in *. lia.
    + destruct (handleFailedItem (now + d) h e (set_queue rest st)) as [st2 u|st2 e'] eqn:Hh.
      * intros Hd. apply IH in Hd.
        apply handleFailedItem_returned in Hh. simpl in Hh.
        destruct Hh as (m & _ & _ & _ & _ & _ & _ & _ & [(_ & Hq2 & _)|(_ & Hq2 & _)]);
          rewrite Hq2 in Hd; [rewrite length_app in Hd|]; simpl in *; lia.
      * intros [= <- <- <-]. apply handleFailedItem_threw in Hh as (_ & ->). simpl. lia.
Qed.

Lemma processQueue_no_longer now st :
  let st' := Js.final_state (processQueue now st) in
  (length (queue st') <= length (queue st))%nat /\ maxQueueSize st' = maxQueueSize st.
Proof.
  destruct (processing st) eqn:Hp.
  - unfold processQueue, processQueue_exit. rewrite Hp. simpl. done.
  - destruct (processQueue_run now st Hp) as (st1 & now1 & ex & Hd & _ & _ & ->).
    pose proof (drain_no_longer _ _ _ _ _ _ _ Hd) as Hlen.
    pose proof (drain_limits _ _ _ _ _ _ _ Hd) as (Hmax & _). simpl in *. done.
Qed.

(** X5.  For calls that complete one after another, the pending count stays
    within [maxQueueSize]: neither [add] nor [processQueue] takes a queue
    that is within the ceiling beyond it, whether the call returns or
    rejects, and [processQueue] never lengthens the queue. *)
Theorem queue_within_ceiling (now : Z) (rnd : string) (d : Js.Val) (st : State) :
  Z.of_nat (length (queue st)) <= maxQueueSize st ->
  (let st' := Js.final_state (add now rnd d st) in
   Z.of_nat (length (queue st')) <= maxQueueSize st' /\ maxQueueSize st' = maxQueueSize st)
  /\
  (let st' := Js.final_state (processQueue now st) in
   Z.of_nat (length (queue st')) <= maxQueueSize st' /\
   (length (queue st') <= length (queue st))%nat).
Proof.
  intros Hin. split; cbv zeta.
  - unfold add.
    destruct (Z.leb_spec (maxQueueSize st) (Z.of_nat (length (queue st)))) as [Hfull|Hroom];
      [done|].
    destruct (negb (validateData d)); [done|].
    set (st1 := set_queue _ st).
    assert (H1 : Z.of_nat (length (queue st1)) <= maxQueueSize st).
    { subst st1. simpl. rewrite length_app. simpl. lia. }
    destruct (negb (processing st1)); [|done].
    destruct (processQueue_no_longer now st1) as [Hlen Hmax].
    change (maxQueueSize st1) with (maxQueueSize st) in Hmax. rewrite Hmax.
    split; [lia|done].
  - destruct (processQueue_no_longer now st) as [Hlen Hmax]. rewrite Hmax.
    split; [lia|done].
Qed.

Lemma queue_within_ceiling_witness :
  Z.of_nat (length (queue QueueSamples.nearly_full_queue))
    <= maxQueueSize QueueSamples.nearly_full_queue /\
  let st' := Js.final_state
               (add 1700000000500 "zzz" (Js.Obj []) QueueSamples.nearly_full_queue) in
  Z.of_nat (length (queue st')) <= maxQueueSize st'.
Proof.
  assert (H : Z.of_nat (length (queue QueueSamples.nearly_full_queue))
              <= maxQueueSize QueueSamples.nearly_full_queue)
    by (vm_compute; discriminate).
  split; [exact H|].
  exact (proj1 (proj1 (queue_within_ceiling 1700000000500 "zzz" (Js.Obj [])
                         QueueSamples.nearly_full_queue H))).
Defined.

(** X6.  The hourly sweep keeps exactly the failure-log entries that failed
    within the last hour and touches neither the queue nor the counters;
    sweeping again at the same instant changes nothing, and a sweep followed
    by a later sweep leaves what the later sweep alone would. *)
Theorem cleanupFailedItems_keeps_recent (now : Z) (st : State) :
  (forall k fi,
     failedItems (cleanupFailedItems now st) !! k = Some fi <->
     failedItems st !! k = Some fi /\ now - 3600000 <= failedAt fi)
  /\ queue (cleanupFailedItems now st) = queue st
  /\ stats (cleanupFailedItems now st) = stats st
  /\ processing (cleanupFailedItems now st) = processing st
  /\ cleanupFailedItems now (cleanupFailedItems now st) = cleanupFailedItems now st
  /\ (forall later, now <= later ->
        cleanupFailedItems later (cleanupFailedItems now st) = cleanupFailedItems later st).
Proof.
  assert (Hlookup : forall t s k fi,
            failedItems (cleanupFailedItems t s) !! k = Some fi <->
            failedItems s !! k = Some fi /\ t - 3600000 <= failedAt fi).
  { intros t s k fi. unfold cleanupFailedItems. simpl.
    rewrite map_lookup_filter_Some. simpl. split; intros [H1 H2]; (split; [done|lia]). }
  assert (Hcompose : forall t1 t2, t1 <= t2 ->
            cleanupFailedItems t2 (cleanupFailedItems t1 st) = cleanupFailedItems t2 st).
  { intros t1 t2 Hle.
    assert (Hmap : failedItems (cleanupFailedItems t2 (cleanupFailedItems t1 st))
                   = failedItems (cleanupFailedItems t2 st)).
    { apply map_eq. intros k. apply option_eq. intros fi.
      rewrite !Hlookup. split; [tauto|]. intros [H1 H2]. repeat split; auto. lia. }
    unfold cleanupFailedItems in *. simpl in *. by rewrite Hmap. }
  split; [apply Hlookup|]. split; [done|]. split; [done|]. split; [done|].
  split; [by apply Hcompose|]. intros later Hle. by apply Hcompose.
Qed.

End QueueBounds.

(** * Further properties of the storage facade *)

Section FacadeLocks.

Import StorageService FacadeSpec FacadeMore.

(** X7.  The synchronization lock of a key is taken exactly when it is
    free; once an attempt was made the lock is held, and a further attempt
    fails and changes nothing; releasing frees it for the next attempt; the
    locks of other keys are not affected. *)
Theorem lock_is_exclusive (key : string) (st : State) :
  snd (acquireLock key st) = negb (held key st)
  /\ (let st1 := fst (acquireLock key st) in
      held key st1 = true /\ acquireLock key st1 = (st1, false))
  /\ held key (releaseLock key st) = false
  /\ snd (acquireLock key (releaseLock key st)) = true
  /\ (forall other, other <> key ->
        held other (fst (acquireLock key st)) = held other st /\
        held other (releaseLock key st) = held other st).
Proof.
  assert (Hrel : held key (releaseLock key st) = false).
  { unfold held, releaseLock. simpl. by rewrite lookup_delete_eq. }
  split; [|split; [|split; [|split]]].
  - unfold acquireLock. by destruct (held key st).
  - cbv zeta. unfold acquireLock. destruct (held key st) eqn:Hh; simpl.
    + by rewrite Hh.
    + assert (Hnow : held key (set_syncLock (<[key:=true]> (syncLock st)) st) = true).
      { unfold held. simpl. by rewrite lookup_insert_eq. }
      by rewrite Hnow.
  - exact Hrel.
  - unfold acquireLock. by rewrite Hrel.
  - intros other Hne. split.
    + unfold acquireLock. destruct (held key st); [done|].
      unfold held. simpl. by rewrite lookup_insert_ne.
    + unfold held, releaseLock. simpl. by rewrite lookup_delete_ne.
Qed.

Lemma queueSync_other_type type other op now st :
  other <> type ->
  bucket other (queueSync type op now st) = bucket other st /\
  held other (queueSync type op now st) = held other st /\
  lastSync (queueSync type op now st) !! other = lastSync st !! other.
Proof.
  intros Hne. unfold queueSync.
  assert (He : bucket other (enqueue type op st) = bucket other st)
    by (by apply bucket_enqueue_ne).
  destruct (syncInterval (enqueue type op st) <? _); [|by rewrite He].
  destruct (held type (enqueue type op st)) eqn:Hh.
  - rewrite processSyncQueue_held by done. by rewrite He.
  - destruct (processSyncQueue_free type now (enqueue type op st) Hh)
      as (_ & _ & _ & _ & _ & _ & _ & Hother).
    destruct (Hother other Hne) as (H1 & H2 & H3). rewrite H1, H2, H3. by rewrite He.
Qed.

(** X8.  The synchronization buckets are independent of each other: a flush
    or a [queueSync] of one type leaves the pending operations, the lock and
    the last flush instant of every other type as they were. *)
Theorem buckets_are_independent (type other : string) (now : Z) (st : State) :
  other <> type ->
  (bucket other (processSyncQueue type now st) = bucket other st /\
   held other (processSyncQueue type now st) = held other st /\
   lastSync (processSyncQueue type now st) !! other = lastSync st !! other)
  /\
  (forall op,
     bucket other (queueSync type op now st) = bucket other st /\
     held other (queueSync type op now st) = held other st /\
     lastSync (queueSync type op now st) !! other = lastSync st !! other).
Proof.
  intros Hne. split.
  - destruct (held type st) eqn:Hh.
    + by rewrite processSyncQueue_held.
    + destruct (processSyncQueue_free type now st Hh) as (_ & _ & _ & _ & _ & _ & _ & Hother).
      by apply Hother.
  - intros op. by apply queueSync_other_type.
Qed.

Lemma buckets_are_independent_witness :
  "price" <> "config" /\
  bucket "price"
    (queueSync "config" FacadeSamples.op_A StoreSamples.t0
       (enqueue "price" FacadeSamples.op_B FacadeSamples.fresh))
  = bucket "price" (enqueue "price" FacadeSamples.op_B FacadeSamples.fresh).
Proof.
  assert (H : "price" <> "config") by discriminate.
  split; [exact H|].
  exact (proj1 (proj2 (buckets_are_independent "config" "price" StoreSamples.t0
                         (enqueue "price" FacadeSamples.op_B FacadeSamples.fresh) H)
                      FacadeSamples.op_A)).
Defined.

Lemma applied_app d1 d2 s : applied (d1 ++ d2) s = applied d2 (applied d1 s).
Proof. unfold applied. by rewrite foldl_app. Qed.

Lemma applied_at ops now s :
  applied ((fun op => (op, now)) <$> ops) s = run_operations ops now s.
Proof.
  revert s. induction ops as [|op ops IH]; intros s; [done|].
  change (applied ((fun op => (op, now)) <$> op :: ops) s)
    with (applied ((fun op => (op, now)) <$> ops) (invoke op now s)).
  by rewrite IH.
Qed.

(** X9.  Whatever the instants of a sequence of [queueSync] calls on one
    bucket and whether its lock is held or not, the operations that were in
    the bucket and the ones queued since are, in that order, first the ones
    invoked — each once, in order — and then the ones still in the bucket:
    no operation is dropped, repeated or overtaken. *)
Theorem queueSync_keeps_order (type : string) (calls : list (Operation * Z)) (st : State) :
  exists done,
    (fst <$> done) ++ bucket type (run_syncs type calls st)
      = bucket type st ++ (fst <$> calls) /\
    stores (run_syncs type calls st) = applied done (stores st).
Proof.
  revert st. induction calls as [|[op now] calls IH]; intros st.
  - exists []. simpl. by rewrite app_nil_r.
  - change (run_syncs type ((op, now) :: calls) st)
      with (run_syncs type calls (queueSync type op now st)).
    destruct (IH (queueSync type op now st)) as (done2 & Hb2 & Hs2).
    destruct (queueSync_outcome type op now st) as [(Hb1 & Hs1)|(Hb1 & Hs1 & _)].
    + exists done2. rewrite Hb2, Hs2, Hb1, Hs1. split; [|done].
      by rewrite <- app_assoc.
    + exists (((fun o => (o, now)) <$> (bucket type st ++ [op])) ++ done2).
      rewrite fmap_app, applied_app, applied_at, <- Hs1, <- Hs2. split; [|done].
      rewrite <- app_assoc, Hb2, Hb1. simpl.
      rewrite <- list_fmap_compose.
      assert (Hid : forall l : list Operation, (fst ∘ (fun o => (o, now))) <$> l = l).
      { clear. induction l as [|x l IHl]; [done|]. by rewrite fmap_cons, IHl. }
      rewrite Hid. by rewrite <- app_assoc.
Qed.

End FacadeLocks.

(** * Reading the configuration through the facade *)

Section FacadeConfig.

Import StorageService FacadeSpec FacadeMore.

Lemma local_getConfig_updateConfig key k v m :
  MemoryStorage.getConfig key (MemoryStorage.updateConfig k v m) =
    if decide (key = k)
    then (if Js.truthy v then Some (k, v) else None)
    else MemoryStorage.getConfig key m.
Proof.
  unfold MemoryStorage.getConfig, MemoryStorage.updateConfig. simpl.
  destruct (decide (key = k)) as [->|Hne].
  - by rewrite lookup_insert_eq.
  - by rewrite lookup_insert_ne.
Qed.

Lemma getConfig_local show key st :
  useSupabase st = false ->
  getConfig show key st =
    (st, config_of_memory <$> MemoryStorage.getConfig key (memory (stores st))).
Proof.
  intros Hm. unfold getConfig. rewrite Hm.
  destruct (MemoryStorage.getConfig key (memory (stores st))); simpl; by rewrite ?Hm.
Qed.

Lemma getConfig_remote_row show key st row :
  useSupabase st = true ->
  Supabase.reachable (supabase (stores st)) = true ->
  Supabase.bot_config (supabase (stores st)) !! key = Some row ->
  snd (getConfig show key st) = Some (config_of_row show key row) /\
  MemoryStorage.config (memory (stores (fst (getConfig show key st)))) =
    <[key := Js.Str (Js.toString show (Supabase.value row))]>
      (MemoryStorage.config (memory (stores st))) /\
  Supabase.bot_config (supabase (stores (fst (getConfig show key st)))) =
    Supabase.bot_config (supabase (stores st)) /\
  syncQueue (fst (getConfig show key st)) = syncQueue st /\
  useSupabase (fst (getConfig show key st)) = true.
Proof.
  intros Hm Hr Hrow. unfold getConfig, Supabase.getConfig, Supabase.ensureInitialized.
  rewrite Hm.
  destruct (Supabase.available (supabase (stores st)));
    destruct (Supabase.initialized (supabase (stores st))); simpl;
    rewrite Hr; simpl; rewrite Hrow; simpl; rewrite Hm; simpl; done.
Qed.

Lemma getConfig_frame show key st :
  let st' := fst (getConfig show key st) in
  let r := supabase (stores st) in
  useSupabase st' = useSupabase st /\ storage st' = storage st /\
  syncQueue st' = syncQueue st /\ syncLock st' = syncLock st /\
  lastSync st' = lastSync st /\
  Supabase.bot_config (supabase (stores st')) = Supabase.bot_config r /\
  Supabase.token_prices (supabase (stores st')) = Supabase.token_prices r /\
  Supabase.reachable (supabase (stores st')) = Supabase.reachable r /\
  Supabase.available (supabase (stores st')) = Supabase.available r /\
  MemoryStorage.prices (memory (stores st')) = MemoryStorage.prices (memory (stores st)) /\
  MemoryStorage.history (memory (stores st')) = MemoryStorage.history (memory (stores st)).
Proof.
  cbv zeta.
  unfold getConfig, Supabase.getConfig, Supabase.ensureInitialized.
    destruct (useSupabase st) eqn:Hm.
    + destruct (Supabase.available (supabase (stores st))) eqn:Ha;
        destruct (Supabase.initialized (supabase (stores st))) eqn:Hi; simpl;
        destruct (Supabase.reachable (supabase (stores st))) eqn:Hr; simpl;
        try destruct (Supabase.bot_config (supabase (stores st)) !! key); simpl;
        rewrite ?Hm; simpl;
        try destruct (MemoryStorage.getConfig key (memory (stores st))); simpl;
        rewrite ?Hm; simpl; rewrite ?Ha, ?Hr; done.
    + destruct (MemoryStorage.getConfig key (memory (stores st))); simpl;
        rewrite ?Hm; simpl; done.
Qed.

(** X10.  Where the facade's [getConfig] reads: under local mode the local
    store alone, with no effect; under remote mode the remote row when the
    remote store answers and has one — its text is returned and written
    over the local value of the key — and the local store otherwise, which
    is then left as it is.  The read never touches the mode, the buckets,
    the locks or the remote tables. *)
Theorem getConfig_remote_before_local (show : Js.Number -> string) (key : string)
    (st : State) :
  let st' := fst (getConfig show key st) in
  let result := snd (getConfig show key st) in
  let local_value := config_of_memory <$> MemoryStorage.getConfig key (memory (stores st)) in
  let r := supabase (stores st) in
  (useSupabase st = false -> st' = st /\ result = local_value)
  /\
  (useSupabase st = true -> Supabase.reachable r = true ->
   forall row, Supabase.bot_config r !! key = Some row ->
     result = Some (config_of_row show key row) /\
     MemoryStorage.config (memory (stores st')) =
       <[key := Js.Str (Js.toString show (Supabase.value row))]>
         (MemoryStorage.config (memory (stores st))))
  /\
  (useSupabase st = true ->
   Supabase.reachable r = false \/ Supabase.bot_config r !! key = None ->
     result = local_value /\
     MemoryStorage.config (memory (stores st')) = MemoryStorage.config (memory (stores st)))
  /\
  (useSupabase st' = useSupabase st /\ storage st' = storage st /\
   syncQueue st' = syncQueue st /\ syncLock st' = syncLock st /\
   lastSync st' = lastSync st /\
   Supabase.bot_config (supabase (stores st')) = Supabase.bot_config r /\
   Supabase.token_prices (supabase (stores st')) = Supabase.token_prices r /\
   Supabase.reachable (supabase (stores st')) = Supabase.reachable r /\
   Supabase.available (supabase (stores st')) = Supabase.available r /\
   MemoryStorage.prices (memory (stores st')) = MemoryStorage.prices (memory (stores st)) /\
   MemoryStorage.history (memory (stores st')) = MemoryStorage.history (memory (stores st))).
Proof.
  cbv zeta. split; [|split; [|split]].
  - intros Hm. by rewrite getConfig_local.
  - intros Hm Hr row Hrow.
    destruct (getConfig_remote_row show key st row Hm Hr Hrow) as (H1 & H2 & _). done.
  - intros Hm Hno.
    assert (Hrow : snd (Supabase.getConfig key (supabase (stores st))) = None).
    { unfold Supabase.getConfig, Supabase.ensureInitialized.
      destruct (Supabase.available (supabase (stores st)));
        destruct (Supabase.initialized (supabase (stores st))); simpl;
        destruct (Supabase.reachable (supabase (stores st))); simpl; try done;
        by destruct Hno. }
    unfold getConfig. rewrite Hm.
    destruct (Supabase.getConfig key (supabase (stores st))) as [r' row]. simpl in Hrow.
    subst row. simpl.
    unfold MemoryStorage.getConfig.
    destruct (MemoryStorage.config (memory (stores st)) !! key) as [v|] eqn:Hv; simpl; [|done].
    destruct (Js.truthy v); simpl; [|done]. rewrite Hm. simpl.
    split; [done|]. by apply insert_id.
  - exact (getConfig_frame show key st).
Qed.

(** X11.  Under local mode a configuration value written through the
    facade is read back as written when it is truthy; a falsy value the
    validator lets through ([0], [false], [null], the empty string) is stored and
    read back as absent.  Other keys read as before. *)
Theorem config_round_trip_local (show : Js.Number -> string) (now : Z) (k : string)
    (v : Js.Val) (st : State) :
  useSupabase st = false ->
  k <> "" ->
  v <> Js.Undefined ->
  let st1 := Js.final_state (updateConfig now (Js.Str k) v st) in
  updateConfig now (Js.Str k) v st = Js.Returned st1 true /\
  snd (getConfig show k st1) =
    (if Js.truthy v then Some {| c_key := k; c_value := v; c_updated_at := None |}
     else None) /\
  (forall k', k' <> k -> snd (getConfig show k' st1) = snd (getConfig show k' st)).
Proof.
  intros Hm Hk Hv st1.
  assert (Hvalid : validateData (Js.Obj [("key", Js.Str k); ("value", v)]) "config" = true).
  { rewrite validateData_config. apply andb_true_intro. split.
    - simpl. destruct k; [done|reflexivity].
    - by destruct v. }
  assert (Hrun : updateConfig now (Js.Str k) v st =
    Js.Returned (set_stores (set_memory (MemoryStorage.updateConfig k v (memory (stores st)))
                                        (stores st)) st) true).
  { unfold updateConfig. rewrite Hvalid. simpl. by rewrite Hm. }
  subst st1. rewrite Hrun. simpl. split; [done|]. split.
  - rewrite getConfig_local by done. simpl.
    rewrite local_getConfig_updateConfig. rewrite decide_True by done.
    by destruct (Js.truthy v).
  - intros k' Hne. rewrite !getConfig_local by done. simpl.
    rewrite local_getConfig_updateConfig. by rewrite decide_False.
Qed.

Lemma config_round_trip_local_witness :
  snd (getConfig show_sample "ui_mode"
         (Js.final_state
            (updateConfig StoreSamples.t0 (Js.Str "ui_mode") (StoreSamples.number 0)
                          (setStorageMode false FacadeSamples.fresh))))
  = None.
Proof.
  assert (Hm : useSupabase (setStorageMode false FacadeSamples.fresh) = false)
    by reflexivity.
  assert (Hk : "ui_mode" <> "") by discriminate.
  assert (Hv : StoreSamples.number 0 <> Js.Undefined) by discriminate.
  exact (proj1 (proj2 (config_round_trip_local show_sample StoreSamples.t0 "ui_mode"
                         (StoreSamples.number 0)
                         (setStorageMode false FacadeSamples.fresh) Hm Hk Hv))).
Defined.

End FacadeConfig.

Section FacadeConfigRemote.

Import StorageService FacadeSpec FacadeMore.

Lemma valid_config k v :
  k <> "" -> v <> Js.Undefined ->
  validateData (Js.Obj [("key", Js.Str k); ("value", v)]) "config" = true.
Proof.
  intros Hk Hv. rewrite validateData_config. apply andb_true_intro. split.
  - simpl. destruct k; [done|reflexivity].
  - by destruct v.
Qed.

Lemma updateConfig_remote now k v st :
  useSupabase st = true -> k <> "" -> v <> Js.Undefined ->
  updateConfig now (Js.Str k) v st =
    Js.Returned
      (queueSync "config" (sync_config k v) now
         (set_stores (set_memory (MemoryStorage.updateConfig k v (memory (stores st)))
                                 (stores st)) st)) true.
Proof.
  intros Hm Hk Hv. unfold updateConfig. rewrite valid_config by done. simpl.
  by rewrite Hm.
Qed.

Lemma remote_updateConfig_written now k v r :
  Supabase.reachable r = true -> v <> Js.Undefined -> v <> Js.Null ->
  let r' := fst (Supabase.updateConfig now k v r) in
  Supabase.bot_config r' !! k = Some {| Supabase.value := v; Supabase.c_updated_at := now |} /\
  Supabase.reachable r' = true.
Proof.
  intros Hr Hu Hn. unfold Supabase.updateConfig, Supabase.ensureInitialized.
  destruct (Supabase.available r); destruct (Supabase.initialized r); simpl;
    rewrite Hr; destruct v; try done; simpl; by rewrite lookup_insert_eq.
Qed.

Lemma remote_updateConfig_reachable now k v r :
  Supabase.reachable (fst (Supabase.updateConfig now k v r)) = Supabase.reachable r.
Proof.
  unfold Supabase.updateConfig, Supabase.ensureInitialized.
  destruct (Supabase.available r); destruct (Supabase.initialized r); simpl;
    destruct (Supabase.reachable r) eqn:Hr; destruct v; simpl; by rewrite ?Hr.
Qed.

Lemma config_writes_keep ops now : forall s,
  Forall (fun op => exists k v, op = sync_config k v) ops ->
  Supabase.reachable (supabase (run_operations ops now s)) = Supabase.reachable (supabase s) /\
  memory (run_operations ops now s) = memory s.
Proof.
  induction ops as [|op ops IH]; intros s Hall; [done|].
  apply Forall_cons in Hall as [(k & v & ->) Hall].
  change (run_operations (sync_config k v :: ops) now s)
    with (run_operations ops now (invoke (sync_config k v) now s)).
  destruct (IH (invoke (sync_config k v) now s) Hall) as [H1 H2].
  rewrite H1, H2. unfold invoke, sync_config. simpl.
  by rewrite remote_updateConfig_reachable.
Qed.

(** X12.  Under remote mode, with the remote store answering, a
    configuration write that finds its bucket due (more than 5 s since the
    last flush, lock free, only configuration writes pending) is in the
    remote table when [updateConfig] returns; [getConfig] then returns the
    text of the value with the instant of the write, and leaves that text,
    not the value written, in the local store. *)
Theorem config_round_trip_remote (show : Js.Number -> string) (now : Z) (k : string)
    (v : Js.Val) (st : State) :
  useSupabase st = true ->
  Supabase.reachable (supabase (stores st)) = true ->
  k <> "" -> v <> Js.Undefined -> v <> Js.Null ->
  held "config" st = false ->
  syncInterval st < now - default 0 (lastSync st !! "config") ->
  Forall (fun op => exists k' v', op = sync_config k' v') (bucket "config" st) ->
  let st1 := Js.final_state (updateConfig now (Js.Str k) v st) in
  let st2 := fst (getConfig show k st1) in
  bucket "config" st1 = [] /\
  MemoryStorage.config (memory (stores st1)) !! k = Some v /\
  snd (getConfig show k st1) =
    Some {| c_key := k; c_value := Js.Str (Js.toString show v);
            c_updated_at := Some now |} /\
  MemoryStorage.config (memory (stores st2)) !! k = Some (Js.Str (Js.toString show v)).
Proof.
  intros Hm Hr Hk Hu Hn Hfree Hdue Hall st1 st2.
  set (st0 := set_stores (set_memory (MemoryStorage.updateConfig k v (memory (stores st)))
                                     (stores st)) st).
  assert (Hst1 : st1 = queueSync "config" (sync_config k v) now st0).
  { subst st1. by rewrite updateConfig_remote. }
  destruct (queueSync_cases "config" (sync_config k v) now st0) as [_ Hflush].
  assert (Hcond : (syncInterval st0 <? now - default 0 (lastSync st0 !! "config"))
                  && negb (held "config" st0) = true).
  { change (held "config" st0) with (held "config" st). rewrite Hfree.
    change (syncInterval st0) with (syncInterval st).
    change (lastSync st0) with (lastSync st).
    apply andb_true_intro. split; [by apply Z.ltb_lt|done]. }
  destruct (Hflush Hcond) as (Hb & Hs & _ & _ & Hmode & _).
  rewrite <- Hst1 in Hb, Hs, Hmode.
  change (bucket "config" st0) with (bucket "config" st) in Hs.
  rewrite run_operations_app in Hs.
  destruct (config_writes_keep (bucket "config" st) now (stores st0) Hall) as [Hkr Hkm].
  set (s1 := run_operations (bucket "config" st) now (stores st0)) in *.
  assert (Hr1 : Supabase.reachable (supabase s1) = true) by (by rewrite Hkr).
  destruct (remote_updateConfig_written now k v (supabase s1) Hr1 Hu Hn) as [Hrow Hr2].
  assert (Hsup : supabase (stores st1) = fst (Supabase.updateConfig now k v (supabase s1)))
    by (by rewrite Hs).
  assert (Hmem : memory (stores st1) = MemoryStorage.updateConfig k v (memory (stores st))).
  { rewrite Hs. simpl. unfold invoke, sync_config. simpl. by rewrite Hkm. }
  assert (Hm1 : useSupabase st1 = true) by (by rewrite Hmode).
  assert (Hreach1 : Supabase.reachable (supabase (stores st1)) = true) by (by rewrite Hsup).
  assert (Hrow1 : Supabase.bot_config (supabase (stores st1)) !! k =
                  Some {| Supabase.value := v; Supabase.c_updated_at := now |})
    by (by rewrite Hsup).
  destruct (getConfig_remote_row show k st1 _ Hm1 Hreach1 Hrow1) as (Hres & Hloc & _).
  split; [exact Hb|]. split.
  { rewrite Hmem. simpl. by rewrite lookup_insert_eq. }
  split; [exact Hres|].
  subst st2. rewrite Hloc. by rewrite lookup_insert_eq.
Qed.

Lemma config_round_trip_remote_witness :
  snd (getConfig show_sample "update_interval"
         (Js.final_state
            (updateConfig StoreSamples.t0 (Js.Str "update_interval") (StoreSamples.number 60)
                          FacadeSamples.fresh)))
  = Some {| c_key := "update_interval"; c_value := Js.Str "60";
            c_updated_at := Some StoreSamples.t0 |}.
Proof.
  assert (Hm : useSupabase FacadeSamples.fresh = true) by reflexivity.
  assert (Hr : Supabase.reachable (supabase (stores FacadeSamples.fresh)) = true)
    by reflexivity.
  assert (Hk : "update_interval" <> "") by discriminate.
  assert (Hu : StoreSamples.number 60 <> Js.Undefined) by discriminate.
  assert (Hn : StoreSamples.number 60 <> Js.Null) by discriminate.
  assert (Hfree : held "config" FacadeSamples.fresh = false) by reflexivity.
  assert (Hdue : syncInterval FacadeSamples.fresh
                 < StoreSamples.t0 - default 0 (lastSync FacadeSamples.fresh !! "config"))
    by (vm_compute; reflexivity).
  assert (Hall : Forall (fun op => exists k' v', op = sync_config k' v')
                        (bucket "config" FacadeSamples.fresh))
    by (apply Forall_nil; exact I).
  exact (proj1 (proj2 (proj2
           (config_round_trip_remote show_sample StoreSamples.t0 "update_interval"
              (StoreSamples.number 60) FacadeSamples.fresh
              Hm Hr Hk Hu Hn Hfree Hdue Hall)))).
Defined.

(** X13.  Under remote mode a configuration write that does not find its
    bucket due stays pending, and a read of the key that follows is served
    from the remote row written before: [getConfig] returns the older value
    and writes it over the newer one in the local store.  When the pending
    write is flushed later, the remote store has the newer value and the
    local store the older one. *)
Theorem config_read_before_flush (show : Js.Number -> string) (now later : Z)
    (k : string) (v : Js.Val) (row : Supabase.ConfigRow) (st : State) :
  useSupabase st = true ->
  Supabase.reachable (supabase (stores st)) = true ->
  Supabase.bot_config (supabase (stores st)) !! k = Some row ->
  k <> "" -> v <> Js.Undefined -> v <> Js.Null ->
  held "config" st = false ->
  bucket "config" st = [] ->
  now - default 0 (lastSync st !! "config") <= syncInterval st ->
  let st1 := Js.final_state (updateConfig now (Js.Str k) v st) in
  let st2 := fst (getConfig show k st1) in
  let st3 := processSyncQueue "config" later st2 in
  let older := Js.Str (Js.toString show (Supabase.value row)) in
  MemoryStorage.config (memory (stores st1)) !! k = Some v /\
  snd (getConfig show k st1) = Some (config_of_row show k row) /\
  MemoryStorage.config (memory (stores st2)) !! k = Some older /\
  bucket "config" st2 = [sync_config k v] /\
  Supabase.bot_config (supabase (stores st3)) !! k =
    Some {| Supabase.value := v; Supabase.c_updated_at := later |} /\
  MemoryStorage.config (memory (stores st3)) !! k = Some older.
Proof.
  intros Hm Hr Hrow Hk Hu Hn Hfree Hempty Hrecent st1 st2 st3 older.
  set (st0 := set_stores (set_memory (MemoryStorage.updateConfig k v (memory (stores st)))
                                     (stores st)) st).
  assert (Hst1 : st1 = enqueue "config" (sync_config k v) st0).
  { subst st1. rewrite updateConfig_remote by done. simpl.
    destruct (queueSync_cases "config" (sync_config k v) now st0) as [Hkeep _].
    apply Hkeep.
    change (syncInterval st0) with (syncInterval st).
    change (lastSync st0) with (lastSync st).
    apply andb_false_intro1. apply Z.ltb_ge. exact Hrecent. }
  assert (Hm1 : useSupabase st1 = true) by (by rewrite Hst1).
  assert (Hr1 : Supabase.reachable (supabase (stores st1)) = true) by (by rewrite Hst1).
  assert (Hrow1 : Supabase.bot_config (supabase (stores st1)) !! k = Some row)
    by (by rewrite Hst1).
  destruct (getConfig_remote_row show k st1 row Hm1 Hr1 Hrow1)
    as (Hres & Hloc & Hbc & Hq & Hm2).
  fold st2 in Hloc, Hbc, Hq, Hm2.
  assert (Hb2 : bucket "config" st2 = [sync_config k v]).
  { unfold bucket. rewrite Hq. rewrite Hst1.
    change (default [] (syncQueue (enqueue "config" (sync_config k v) st0) !! "config"))
      with (bucket "config" (enqueue "config" (sync_config k v) st0)).
    rewrite bucket_enqueue.
    change (bucket "config" st0) with (bucket "config" st). by rewrite Hempty. }
  assert (Hloc2 : MemoryStorage.config (memory (stores st2)) !! k = Some older).
  { rewrite Hloc. by rewrite lookup_insert_eq. }
  assert (Hreach2 : Supabase.reachable (supabase (stores st2)) = true).
  { destruct (getConfig_frame show k st1) as (_ & _ & _ & _ & _ & _ & _ & H & _).
    fold st2 in H. by rewrite H. }
  assert (Hfree2 : held "config" st2 = false).
  { destruct (getConfig_frame show k st1) as (_ & _ & _ & H & _).
    fold st2 in H. unfold held. rewrite H. rewrite Hst1. exact Hfree. }
  destruct (processSyncQueue_free "config" later st2 Hfree2) as (_ & Hs3 & _).
  fold st3 in Hs3. rewrite Hb2 in Hs3.
  change (run_operations [sync_config k v] later (stores st2))
    with (invoke (sync_config k v) later (stores st2)) in Hs3.
  destruct (remote_updateConfig_written later k v (supabase (stores st2)) Hreach2 Hu Hn)
    as [Hw _].
  split.
  { rewrite Hst1. simpl. by rewrite lookup_insert_eq. }
  split; [exact Hres|]. split; [exact Hloc2|]. split; [exact Hb2|].
  rewrite Hs3. unfold invoke, sync_config. simpl. split; [exact Hw|exact Hloc2].
Qed.

Lemma config_read_before_flush_witness :
  snd (getConfig show_sample "ui_mode" unflushed_write)
  = Some {| c_key := "ui_mode"; c_value := Js.Str "buttons";
            c_updated_at := Some StoreSamples.t0 |}.
Proof.
  pose (st := Js.final_state
                (updateConfig StoreSamples.t0 (Js.Str "ui_mode") (Js.Str "buttons")
                              FacadeSamples.fresh)).
  pose (row := {| Supabase.value := Js.Str "buttons";
                  Supabase.c_updated_at := StoreSamples.t0 |}).
  assert (Hm : useSupabase st = true) by reflexivity.
  assert (Hr : Supabase.reachable (supabase (stores st)) = true) by reflexivity.
  assert (Hrow : Supabase.bot_config (supabase (stores st)) !! "ui_mode" = Some row)
    by (vm_compute; reflexivity).
  assert (Hk : "ui_mode" <> "") by discriminate.
  assert (Hu : Js.Str "text" <> Js.Undefined) by discriminate.
  assert (Hn : Js.Str "text" <> Js.Null) by discriminate.
  assert (Hfree : held "config" st = false) by (vm_compute; reflexivity).
  assert (Hempty : bucket "config" st = []) by (vm_compute; reflexivity).
  assert (Hrecent : (StoreSamples.t0 + 1000) - default 0 (lastSync st !! "config")
                    <= syncInterval st)
    by (vm_compute; discriminate).
  exact (proj1 (proj2
           (config_read_before_flush show_sample (StoreSamples.t0 + 1000)
              (StoreSamples.t0 + 10000) "ui_mode" (Js.Str "text") row st
              Hm Hr Hrow Hk Hu Hn Hfree Hempty Hrecent))).
Defined.

End FacadeConfigRemote.

(** * The start-up probe and the privileged-user set *)

Section StartUp.

Import StorageService FacadeSpec.

(** X14.  For a facade whose [storage] is the remote adapter (every facade
    the constructor makes), [initializeStorage] returns [true] exactly when
    the credentials were accepted and the remote store answers; the value
    returned is the mode it leaves, the switch to remote mode is never the
    refused one, nothing but the mode flag changes, and a second run gives
    the same. *)
Theorem initializeStorage_sets_mode (st : State) :
  storage st = SupabaseStore ->
  let st' := fst (Bot.initializeStorage st) in
  let ok := snd (Bot.initializeStorage st) in
  ok = Supabase.available (supabase (stores st)) && Supabase.reachable (supabase (stores st)) /\
  useSupabase st' = ok /\
  getStorageMode st' = (if ok then "supabase" else "memory") /\
  st' = set_useSupabase ok st /\
  Bot.initializeStorage st' = (st', ok).
Proof.
  intros Hs. cbv zeta.
  unfold Bot.initializeStorage, testConnection, Supabase.testConnection,
    setStorageMode, isSupabaseAvailable, Supabase.isAvailable, getStorageMode.
  rewrite Hs. simpl.
  destruct (Supabase.available (supabase (stores st))) eqn:Ha; simpl.
  - destruct (Supabase.reachable (supabase (stores st))) eqn:Hr; simpl;
      rewrite ?Hs, ?Ha, ?Hr; simpl; rewrite ?Ha; done.
  - rewrite ?Hs, ?Ha; simpl. rewrite ?Ha. done.
Qed.

Lemma initializeStorage_sets_mode_witness :
  getStorageMode (fst (Bot.initializeStorage FacadeSamples.fresh_remote_down)) = "memory".
Proof.
  assert (Hs : storage FacadeSamples.fresh_remote_down = SupabaseStore) by reflexivity.
  exact (proj1 (proj2 (proj2
           (initializeStorage_sets_mode FacadeSamples.fresh_remote_down Hs)))).
Defined.

End StartUp.

Section AdminSet.

Import StorageService Admins.

Lemma is_empty_false (s : gset string) u : u ∈ s -> is_empty s = false.
Proof.
  intros Hin. unfold is_empty. apply bool_decide_eq_false. intros ->. set_solver.
Qed.

Lemma is_empty_true (s : gset string) : is_empty s = true -> s = ∅.
Proof. unfold is_empty. intros H. by apply bool_decide_eq_true in H. Qed.

Lemma is_empty_empty : is_empty ∅ = true.
Proof. unfold is_empty. by apply bool_decide_eq_true. Qed.

(** What [getSecondaryAdmins] returns and what it leaves. *)
Lemma getSecondaryAdmins_result st a :
  let served :=
    if useSupabase st && Supabase.reachable (supabase (stores st))
       && negb (is_empty (remote a))
    then remote a else local a in
  snd (getSecondaryAdmins st a) = served /\
  remote (fst (getSecondaryAdmins st a)) = remote a /\
  local (fst (getSecondaryAdmins st a)) =
    (if useSupabase st then served ∪ local a else local a).
Proof.
  cbv zeta. unfold getSecondaryAdmins, supabase_get, memory_get, copy_to_memory.
  destruct (useSupabase st); simpl.
  - destruct (Supabase.reachable (supabase (stores st))); simpl.
    + destruct (is_empty (remote a)) eqn:He; simpl.
      * destruct (is_empty (local a)) eqn:Hl; simpl; [|done].
        apply is_empty_true in Hl. rewrite Hl. split; [done|]. split; [done|]. set_solver.
      * by rewrite He.
    + rewrite is_empty_empty. simpl.
      destruct (is_empty (local a)) eqn:Hl; simpl; [|done].
      apply is_empty_true in Hl. rewrite Hl. split; [done|]. split; [done|]. set_solver.
  - rewrite is_empty_empty. simpl. rewrite andb_false_r. done.
Qed.

(** X15.  Which set [getSecondaryAdmins] serves: the remote table when the
    facade is in remote mode, the remote store answers and the table is not
    empty, the local set otherwise.  Under remote mode the ids served are
    added to the local set; the remote table is never changed by a read,
    and no id leaves the local set.  The constructor's
    [loadSecondaryAdmins] likewise only adds remote ids to the local set. *)
Theorem getSecondaryAdmins_source (st : State) (a : Sets) :
  let served :=
    if useSupabase st && Supabase.reachable (supabase (stores st))
       && negb (is_empty (remote a))
    then remote a else local a in
  snd (getSecondaryAdmins st a) = served /\
  remote (fst (getSecondaryAdmins st a)) = remote a /\
  local (fst (getSecondaryAdmins st a)) =
    (if useSupabase st then served ∪ local a else local a) /\
  (local a ⊆ local (fst (getSecondaryAdmins st a))) /\
  remote (loadSecondaryAdmins st a) = remote a /\
  (local a ⊆ local (loadSecondaryAdmins st a)) /\
  (local (loadSecondaryAdmins st a) ⊆ local a ∪ remote a) /\
  (held "admins" st = false -> useSupabase st = true ->
   Supabase.reachable (supabase (stores st)) = true ->
   remote a ⊆ local (loadSecondaryAdmins st a)).
Proof.
  cbv zeta. destruct (getSecondaryAdmins_result st a) as (H1 & H2 & H3).
  split; [exact H1|]. split; [exact H2|]. split; [exact H3|]. split.
  { rewrite H3. destruct (useSupabase st); set_solver. }
  unfold loadSecondaryAdmins, copy_to_memory, supabase_get.
  destruct (held "admins" st); destruct (useSupabase st);
    destruct (Supabase.reachable (supabase (stores st))); simpl;
    repeat split; try done; set_solver.
Qed.

(** X16.  After [addSecondaryAdmin(u)] the id is in the set that
    [getSecondaryAdmins] serves and in the local set, in either mode and
    whether the remote store answers or not, also when the id was there
    already (the remote insert then fails on the primary key and is
    ignored). *)
Theorem admin_listed_after_add (u : string) (st : State) (a : Sets) :
  (u ∈ snd (getSecondaryAdmins st (addSecondaryAdmin u st a))) /\
  (u ∈ local (addSecondaryAdmin u st a)) /\
  (local a ⊆ local (addSecondaryAdmin u st a)) /\
  (remote a ⊆ remote (addSecondaryAdmin u st a)).
Proof.
  destruct (getSecondaryAdmins_result st (addSecondaryAdmin u st a)) as (H1 & _).
  rewrite H1. clear H1.
  unfold addSecondaryAdmin, supabase_add, memory_add.
  destruct (useSupabase st); simpl.
  - destruct (Supabase.reachable (supabase (stores st))); simpl.
    + destruct (bool_decide (u ∈ remote a)) eqn:Hin; simpl.
      * apply bool_decide_eq_true in Hin. rewrite (is_empty_false _ u Hin). simpl.
        repeat split; set_solver.
      * rewrite (is_empty_false ({[u]} ∪ remote a) u) by set_solver. simpl.
        repeat split; set_solver.
    + repeat split; set_solver.
  - repeat split; set_solver.
Qed.

(** X17.  After [removeSecondaryAdmin(u)] the id is not in the set served
    as long as the mode and the remote store's answering are what they were
    at the removal.  A removal under remote mode while the remote store
    does not answer takes the id from the local set only: when the remote
    store answers again the id is served again and copied back into the
    local set. *)
Theorem admin_removal (u : string) (st : State) (a : Sets) :
  (u ∉ snd (getSecondaryAdmins st (removeSecondaryAdmin u st a))) /\
  (u ∉ local (removeSecondaryAdmin u st a)) /\
  (forall st',
     useSupabase st = true -> Supabase.reachable (supabase (stores st)) = false ->
     useSupabase st' = true -> Supabase.reachable (supabase (stores st')) = true ->
     u ∈ remote a ->
     (u ∈ snd (getSecondaryAdmins st' (removeSecondaryAdmin u st a))) /\
     (u ∈ local (fst (getSecondaryAdmins st' (removeSecondaryAdmin u st a))))).
Proof.
  split; [|split].
  - destruct (getSecondaryAdmins_result st (removeSecondaryAdmin u st a)) as (H1 & _).
    rewrite H1. clear H1.
    unfold removeSecondaryAdmin, supabase_remove, memory_remove.
    destruct (useSupabase st); simpl.
    + destruct (Supabase.reachable (supabase (stores st))); simpl.
      * destruct (is_empty (remote a ∖ {[u]})); simpl; set_solver.
      * set_solver.
    + set_solver.
  - unfold removeSecondaryAdmin, supabase_remove, memory_remove.
    destruct (useSupabase st); simpl;
      [destruct (Supabase.reachable (supabase (stores st))); simpl|]; set_solver.
  - intros st' Hm Hr Hm' Hr' Hin.
    destruct (getSecondaryAdmins_result st' (removeSecondaryAdmin u st a)) as (H1 & _ & H3).
    rewrite H1, H3. clear H1 H3.
    unfold removeSecondaryAdmin, supabase_remove, memory_remove.
    rewrite Hm, Hr, Hm', Hr'. simpl.
    rewrite (is_empty_false _ u Hin). simpl. set_solver.
Qed.

(** X18.  Under remote mode an id that is in the local set only (added
    while the facade was in local mode, or while the remote store did not
    answer) is served as long as the remote table is empty, and is no
    longer served once another id is added: the table is then not empty and
    is served alone. *)
Theorem admin_add_hides_local (u v : string) (st : State) (a : Sets) :
  useSupabase st = true ->
  Supabase.reachable (supabase (stores st)) = true ->
  remote a = ∅ ->
  v ∈ local a ->
  u <> v ->
  (v ∈ snd (getSecondaryAdmins st a)) /\
  snd (getSecondaryAdmins st (addSecondaryAdmin u st a)) = {[u]} /\
  (v ∉ snd (getSecondaryAdmins st (addSecondaryAdmin u st a))) /\
  (v ∈ local (fst (getSecondaryAdmins st (addSecondaryAdmin u st a)))).
Proof.
  intros Hm Hr Hrem Hv Hne.
  destruct (getSecondaryAdmins_result st a) as (H1 & _).
  destruct (getSecondaryAdmins_result st (addSecondaryAdmin u st a)) as (H2 & _ & H3).
  rewrite H1, H2, H3. clear H1 H2 H3.
  unfold addSecondaryAdmin, supabase_add, memory_add.
  rewrite Hm, Hr. simpl.
  destruct (bool_decide (u ∈ remote a)) eqn:Hin; simpl.
  { apply bool_decide_eq_true in Hin. set_solver. }
  rewrite (is_empty_false ({[u]} ∪ remote a) u) by set_solver.
  rewrite Hrem, is_empty_empty. simpl.
  repeat split; set_solver.
Qed.

Lemma admin_add_hides_local_witness :
  "7" ∉ snd (getSecondaryAdmins FacadeSamples.fresh
               (addSecondaryAdmin "8" FacadeSamples.fresh AdminSamples.one_local_admin)).
Proof.
  assert (Hm : useSupabase FacadeSamples.fresh = true) by reflexivity.
  assert (Hr : Supabase.reachable (supabase (stores FacadeSamples.fresh)) = true)
    by reflexivity.
  assert (Hrem : remote AdminSamples.one_local_admin = ∅) by reflexivity.
  assert (Hv : "7" ∈ local AdminSamples.one_local_admin)
    by (vm_compute; reflexivity).
  assert (Hne : "8" <> "7") by discriminate.
  exact (proj1 (proj2 (proj2
           (admin_add_hides_local "8" "7" FacadeSamples.fresh AdminSamples.one_local_admin
              Hm Hr Hrem Hv Hne)))).
Defined.

End AdminSet.

(** * Further properties of the local store *)

Section LocalPools.

Import StoreSpec.

(** X19.  The local store keeps the pools apart: a save for one pool
    changes neither the current price nor the series of another pool, nor
    the configuration. *)
Theorem local_pools_independent (now later : Z) (pool : string) (t : Payload.Token)
    (p : Payload.Price) (st : MemoryStorage.State) :
  pool <> Payload.poolAddress t ->
  MemoryStorage.getTokenPrice later pool (MemoryStorage.saveTokenPrice now t p st)
    = MemoryStorage.getTokenPrice later pool st /\
  MemoryStorage.getPriceHistory pool (MemoryStorage.saveTokenPrice now t p st)
    = MemoryStorage.getPriceHistory pool st /\
  (forall k, MemoryStorage.getConfig k (MemoryStorage.saveTokenPrice now t p st)
             = MemoryStorage.getConfig k st).
Proof.
  intros Hne. split; [|split].
  - unfold MemoryStorage.getTokenPrice, MemoryStorage.saveTokenPrice. simpl.
    by rewrite lookup_insert_ne.
  - rewrite saveTokenPrice_history. by rewrite decide_False.
  - done.
Qed.

Lemma local_pools_independent_witness :
  MemoryStorage.getPriceHistory "P2"
    (MemoryStorage.saveTokenPrice StoreSamples.t0 StoreSamples.token_P1 StoreSamples.price_1
       MemoryStorage.constructor)
  = MemoryStorage.getPriceHistory "P2" MemoryStorage.constructor.
Proof.
  assert (Hne : "P2" <> Payload.poolAddress StoreSamples.token_P1) by discriminate.
  exact (proj1 (proj2 (local_pools_independent StoreSamples.t0 StoreSamples.t0 "P2"
                         StoreSamples.token_P1 StoreSamples.price_1
                         MemoryStorage.constructor Hne))).
Defined.

(** X20.  [clearHistory] of the local store empties the series of the pool
    and nothing else: the current price of that pool is still served, the
    series of other pools and the configuration are as before; the next
    save for the pool starts a series of one point. *)
Theorem local_clearHistory_keeps_price (pool : string) (st : MemoryStorage.State) :
  MemoryStorage.getPriceHistory pool (MemoryStorage.clearHistory pool st) = [] /\
  (forall now q, MemoryStorage.getTokenPrice now q (MemoryStorage.clearHistory pool st)
                 = MemoryStorage.getTokenPrice now q st) /\
  (forall q, q <> pool ->
     MemoryStorage.getPriceHistory q (MemoryStorage.clearHistory pool st)
     = MemoryStorage.getPriceHistory q st) /\
  (forall k, MemoryStorage.getConfig k (MemoryStorage.clearHistory pool st)
             = MemoryStorage.getConfig k st) /\
  (forall now t p, Payload.poolAddress t = pool ->
     MemoryStorage.getPriceHistory pool
       (MemoryStorage.saveTokenPrice now t p (MemoryStorage.clearHistory pool st))
     = [{| Payload.h_price := Payload.price p; Payload.h_updated_at := now |}]).
Proof.
  assert (Hempty : MemoryStorage.getPriceHistory pool (MemoryStorage.clearHistory pool st) = []).
  { unfold MemoryStorage.getPriceHistory, MemoryStorage.clearHistory. simpl.
    by rewrite lookup_delete_eq. }
  split; [exact Hempty|]. split; [done|]. split; [|split; [done|]].
  - intros q Hne. unfold MemoryStorage.getPriceHistory, MemoryStorage.clearHistory. simpl.
    by rewrite lookup_delete_ne.
  - intros now t p Hpool. rewrite saveTokenPrice_history.
    rewrite decide_True by done. by rewrite Hempty.
Qed.

End LocalPools.

(** * Further properties of the remote store *)

Section RemoteRows.

Import StoreSpec StoreMore.

Lemma newer_first_total : Total Supabase.newer_first.
Proof. intros a b. unfold Supabase.newer_first. lia. Qed.

Lemma newer_first_trans : Transitive Supabase.newer_first.
Proof. intros a b c. unfold Supabase.newer_first. lia. Qed.

Lemma sorted_newer_first rows :
  StronglySorted Supabase.newer_first (merge_sort Supabase.newer_first rows).
Proof.
  pose proof newer_first_total. pose proof newer_first_trans.
  apply StronglySorted_merge_sort; assumption.
Qed.

Lemma map_is_fmap {A B} (f : A -> B) (l : list A) : map f l = f <$> l.
Proof. induction l as [|x l IH]; [done|]. simpl. by rewrite IH. Qed.

Lemma elem_of_rows_of pool st r :
  r ∈ Supabase.rows_of pool st <-> r ∈ Supabase.token_prices st /\ Supabase.pool_address r = pool.
Proof. unfold Supabase.rows_of. rewrite list_elem_of_filter. tauto. Qed.

Lemma elem_of_sorted rows r :
  r ∈ merge_sort Supabase.newer_first rows <-> r ∈ rows.
Proof. by rewrite merge_sort_Permutation. Qed.

(** What [getPriceHistory] returns when the request gets through. *)
Lemma remote_history_rows pool limit st :
  Supabase.reachable st = true ->
  Supabase.getPriceHistory pool limit st =
    point_of_row <$> take (Z.to_nat (default 24 limit))
                          (merge_sort Supabase.newer_first (Supabase.rows_of pool st)).
Proof.
  intros Hr. unfold Supabase.getPriceHistory. rewrite Hr. simpl. by rewrite map_is_fmap.
Qed.

Lemma foldl_newer_max rs : forall r x,
  x ∈ r :: rs ->
  Supabase.updated_at x <= Supabase.updated_at (foldl Supabase.newer r rs).
Proof.
  induction rs as [|y rs IH]; intros r x Hin.
  - apply list_elem_of_singleton in Hin. subst x. simpl. lia.
  - simpl.
    assert (Hr : Supabase.updated_at r <= Supabase.updated_at (Supabase.newer r y) /\
                 Supabase.updated_at y <= Supabase.updated_at (Supabase.newer r y)).
    { unfold Supabase.newer.
      destruct (Z.ltb_spec (Supabase.updated_at r) (Supabase.updated_at y)); lia. }
    pose proof (IH (Supabase.newer r y) (Supabase.newer r y)) as Hself.
    assert (Hs : Supabase.updated_at (Supabase.newer r y)
                 <= Supabase.updated_at (foldl Supabase.newer (Supabase.newer r y) rs))
      by (apply Hself; set_solver).
    apply elem_of_cons in Hin as [->|Hin]; [lia|].
    apply elem_of_cons in Hin as [->|Hin]; [lia|].
    apply IH. set_solver.
Qed.

Lemma latest_max rows d r :
  Supabase.latest rows = Some d -> r ∈ rows ->
  Supabase.updated_at r <= Supabase.updated_at d.
Proof.
  destruct rows as [|r0 rs]; [done|]. simpl. intros [= <-] Hin. by apply foldl_newer_max.
Qed.

Lemma latest_None rows : Supabase.latest rows = None -> rows = [].
Proof. by destruct rows. Qed.

Lemma remote_history_facts (pool : string) (limit : option Z) (st : Supabase.State) :
  let h := Supabase.getPriceHistory pool limit st in
  let n := Z.to_nat (default 24 limit) in
  newest_first h /\
  (Supabase.reachable st = true ->
   length h = Nat.min n (length (Supabase.rows_of pool st))) /\
  (Supabase.reachable st = false -> h = []) /\
  (forall p, p ∈ h ->
     exists r, r ∈ Supabase.token_prices st /\ Supabase.pool_address r = pool /\
               p = point_of_row r) /\
  (Supabase.reachable st = true ->
   forall r, r ∈ Supabase.token_prices st -> Supabase.pool_address r = pool ->
     point_of_row r ∈ h \/
     forall p, p ∈ h -> Supabase.updated_at r <= Payload.h_updated_at p).
Proof.
  cbv zeta.
  destruct (Supabase.reachable st) eqn:Hr.
  2:{ unfold Supabase.getPriceHistory. rewrite Hr. simpl.
      split; [constructor|]. split; [done|]. split; [done|]. split; [|done].
      intros p Hp. by apply elem_of_nil in Hp. }
  rewrite remote_history_rows by done.
  set (sorted := merge_sort Supabase.newer_first (Supabase.rows_of pool st)).
  set (n := Z.to_nat (default 24 limit)).
  assert (Hsorted : StronglySorted Supabase.newer_first sorted)
    by apply sorted_newer_first.
  split; [|split; [|split; [done|split]]].
  - eapply (StronglySorted_fmap point_of_row Supabase.newer_first).
    + intros a b Hab. exact Hab.
    + by apply StronglySorted_take.
  - intros _. rewrite length_fmap, length_take. subst sorted.
    by rewrite merge_sort_Permutation.
  - intros p Hp. apply list_elem_of_fmap in Hp as (r & -> & Hin).
    apply elem_of_take in Hin as (i & Hin & _).
    apply list_elem_of_lookup_2 in Hin. apply (proj1 (elem_of_sorted _ _)) in Hin.
    apply (proj1 (elem_of_rows_of _ _ _)) in Hin as [Hin Hpool]. eauto.
  - intros _ r Hin Hpool.
    assert (Hs : r ∈ sorted) by (apply elem_of_sorted, elem_of_rows_of; done).
    rewrite <- (take_drop n sorted) in Hs. apply elem_of_app in Hs as [Hs|Hs].
    + left. apply list_elem_of_fmap. eauto.
    + right. intros p Hp. apply list_elem_of_fmap in Hp as (x & -> & Hx).
      rewrite <- (take_drop n sorted) in Hsorted.
      exact (StronglySorted_app_1_elem_of _ _ _ _ _ Hsorted Hx Hs).
Qed.

(** X21.  The series the remote store returns for a pool: newest first,
    made of rows of that pool only, as many as there are up to the limit
    (24 when none is given), and the newest ones: a row of the pool that is
    left out is no newer than any point returned.  Nothing is returned when
    the request fails. *)
Theorem remote_history_newest_rows (pool : string) (limit : option Z) (st : Supabase.State) :
  let h := Supabase.getPriceHistory pool limit st in
  let n := Z.to_nat (default 24 limit) in
  newest_first h /\
  (Supabase.reachable st = true ->
   length h = Nat.min n (length (Supabase.rows_of pool st))) /\
  (Supabase.reachable st = false -> h = []) /\
  (forall p, p ∈ h ->
     exists r, r ∈ Supabase.token_prices st /\ Supabase.pool_address r = pool /\
               p = point_of_row r) /\
  (Supabase.reachable st = true ->
   forall r, r ∈ Supabase.token_prices st -> Supabase.pool_address r = pool ->
     point_of_row r ∈ h \/
     forall p, p ∈ h -> Supabase.updated_at r <= Payload.h_updated_at p).
Proof. exact (remote_history_facts pool limit st). Qed.

(** X22.  The price the remote store serves for a pool is that of a row of
    the pool which no row of the pool is newer than, and that row is at
    most 30 s old; the first point of the pool's series, for any limit of
    at least one, carries that row's timestamp. *)
Theorem remote_price_is_newest (now : Z) (pool : string) (st : Supabase.State)
    (p : Payload.Price) :
  Supabase.getTokenPrice now pool st = Some p ->
  exists d,
    d ∈ Supabase.token_prices st /\ Supabase.pool_address d = pool /\
    p = price_of_row d /\ now - Supabase.updated_at d <= 30000 /\
    (forall r, r ∈ Supabase.token_prices st -> Supabase.pool_address r = pool ->
       Supabase.updated_at r <= Supabase.updated_at d) /\
    (forall limit, 1 <= default 24 limit ->
       exists q, head (Supabase.getPriceHistory pool limit st) = Some q /\
                 Payload.h_updated_at q = Supabase.updated_at d).
Proof.
  rewrite remote_read_spec. destruct (Supabase.reachable st) eqn:Hr; [|done].
  destruct (Supabase.latest (Supabase.rows_of pool st)) as [d|] eqn:Hl; [|done].
  destruct (decide (now - Supabase.updated_at d <= 30000)) as [Hfresh|]; [|done].
  intros [= <-]. exists d.
  pose proof (latest_elem _ _ Hl) as Hd.
  apply (proj1 (elem_of_rows_of _ _ _)) in Hd as [Hd Hpool].
  assert (Hmax : forall r, r ∈ Supabase.token_prices st -> Supabase.pool_address r = pool ->
                           Supabase.updated_at r <= Supabase.updated_at d).
  { intros r Hin Hp. apply (latest_max _ _ _ Hl). by apply elem_of_rows_of. }
  repeat split; try done.
  intros limit Hlimit. rewrite remote_history_rows by done.
  set (sorted := merge_sort Supabase.newer_first (Supabase.rows_of pool st)).
  assert (Hsorted : StronglySorted Supabase.newer_first sorted)
    by apply sorted_newer_first.
  assert (Hds : d ∈ sorted) by (apply elem_of_sorted, elem_of_rows_of; done).
  destruct sorted as [|r0 rest] eqn:Hs; [by apply elem_of_nil in Hds|].
  destruct (Z.to_nat (default 24 limit)) as [|n] eqn:Hn; [lia|].
  simpl. exists (point_of_row r0). split; [done|]. simpl.
  assert (Hr0 : r0 ∈ sorted) by (rewrite Hs; set_solver).
  apply (proj1 (elem_of_sorted _ _)) in Hr0.
  apply (proj1 (elem_of_rows_of _ _ _)) in Hr0 as [Hr0 Hp0].
  pose proof (Hmax r0 Hr0 Hp0) as Hle.
  apply StronglySorted_cons in Hsorted as [Hall _].
  apply elem_of_cons in Hds as [->|Hds]; [done|].
  rewrite Forall_forall in Hall. specialize (Hall d Hds).
  unfold Supabase.newer_first in Hall. lia.
Qed.

Lemma remote_price_is_newest_witness :
  exists d,
    d ∈ Supabase.token_prices remote_two_saves /\ Supabase.pool_address d = "P1" /\
    StoreSamples.price_2 = price_of_row d /\
    (StoreSamples.t0 + 2000) - Supabase.updated_at d <= 30000 /\
    (forall r, r ∈ Supabase.token_prices remote_two_saves -> Supabase.pool_address r = "P1" ->
       Supabase.updated_at r <= Supabase.updated_at d) /\
    (forall limit, 1 <= default 24 limit ->
       exists q, head (Supabase.getPriceHistory "P1" limit remote_two_saves) = Some q /\
                 Payload.h_updated_at q = Supabase.updated_at d).
Proof.
  assert (H : Supabase.getTokenPrice (StoreSamples.t0 + 2000) "P1" remote_two_saves
              = Some StoreSamples.price_2) by (vm_compute; reflexivity).
  exact (remote_price_is_newest (StoreSamples.t0 + 2000) "P1" remote_two_saves
           StoreSamples.price_2 H).
Defined.

(** X23.  [clearHistory] of the remote store deletes every row of the
    pool, so that the pool then has neither a series nor a current price,
    and leaves the rows of other pools and the configuration; when the
    request fails it returns [false] and nothing is deleted. *)
Theorem remote_clearHistory_drops_pool (pool : string) (st : Supabase.State) :
  let st' := fst (Supabase.clearHistory pool st) in
  snd (Supabase.clearHistory pool st) = Supabase.reachable st /\
  (Supabase.reachable st = false -> st' = st) /\
  (Supabase.reachable st = true ->
   Supabase.rows_of pool st' = [] /\
   (forall now, Supabase.getTokenPrice now pool st' = None) /\
   (forall limit, Supabase.getPriceHistory pool limit st' = [])) /\
  (forall q, q <> pool -> Supabase.rows_of q st' = Supabase.rows_of q st) /\
  (forall q now, q <> pool ->
     Supabase.getTokenPrice now q st' = Supabase.getTokenPrice now q st) /\
  (forall q limit, q <> pool ->
     Supabase.getPriceHistory q limit st' = Supabase.getPriceHistory q limit st) /\
  Supabase.bot_config st' = Supabase.bot_config st /\
  Supabase.reachable st' = Supabase.reachable st.
Proof.
  cbv zeta.
  assert (Hother : forall q, q <> pool ->
            Supabase.rows_of q (fst (Supabase.clearHistory pool st)) = Supabase.rows_of q st).
  { intros q Hne. unfold Supabase.clearHistory, Supabase.rows_of.
    destruct (Supabase.reachable st); simpl; [|done].
    induction (Supabase.token_prices st) as [|r rows IH]; [done|].
    rewrite !filter_cons.
    destruct (decide (Supabase.pool_address r ≠ pool)) as [Hk|Hk].
    - rewrite filter_cons. destruct (decide (Supabase.pool_address r = q)); by rewrite IH.
    - rewrite IH. destruct (decide (Supabase.pool_address r = q)) as [Hq|]; [|done].
      exfalso. apply Hk. congruence. }
  assert (Hreach : Supabase.reachable (fst (Supabase.clearHistory pool st))
                   = Supabase.reachable st).
  { unfold Supabase.clearHistory. by destruct (Supabase.reachable st) eqn:E. }
  split; [|split; [|split; [|split; [exact Hother|split; [|split; [|split]]]]]].
  - unfold Supabase.clearHistory. by destruct (Supabase.reachable st).
  - intros Hr. unfold Supabase.clearHistory. by rewrite Hr.
  - intros Hr.
    assert (Hnone : Supabase.rows_of pool (fst (Supabase.clearHistory pool st)) = []).
    { unfold Supabase.clearHistory, Supabase.rows_of. rewrite Hr. simpl.
      induction (Supabase.token_prices st) as [|r rows IH]; [done|].
      rewrite filter_cons.
      destruct (decide (Supabase.pool_address r ≠ pool)) as [Hk|Hk]; [|exact IH].
      rewrite filter_cons. rewrite decide_False by done. exact IH. }
    split; [exact Hnone|]. split.
    + intros now. unfold Supabase.getTokenPrice. rewrite Hreach, Hr, Hnone. done.
    + intros limit. unfold Supabase.getPriceHistory. rewrite Hreach, Hr, Hnone. simpl.
      by destruct (Z.to_nat (default 24 limit)).
  - intros q now Hne. unfold Supabase.getTokenPrice. by rewrite Hreach, (Hother q Hne).
  - intros q limit Hne. unfold Supabase.getPriceHistory. by rewrite Hreach, (Hother q Hne).
  - unfold Supabase.clearHistory. by destruct (Supabase.reachable st).
  - exact Hreach.
Qed.

(** X24.  A save the remote table accepts, made at an instant later than
    every row of the pool, is the first point of the pool's series for any
    limit of at least one; the rows that were in the table are all still
    there, unchanged and in their order, and the series of other pools are
    as before. *)
Theorem remote_save_heads_history (now : Z) (t : Payload.Token) (p : Payload.Price)
    (st : Supabase.State) :
  Supabase.reachable st = true ->
  table_accepts t p ->
  (forall r, r ∈ Supabase.token_prices st ->
     Supabase.pool_address r = Payload.poolAddress t -> Supabase.updated_at r < now) ->
  let st' := Supabase.saveTokenPrice now t p st in
  (forall limit, 1 <= default 24 limit ->
     head (Supabase.getPriceHistory (Payload.poolAddress t) limit st') =
       Some {| Payload.h_price := Supabase.column (Payload.price p);
               Payload.h_updated_at := now |}) /\
  (exists row, Supabase.token_prices st' = Supabase.token_prices st ++ [row]) /\
  (forall q limit, q <> Payload.poolAddress t ->
     Supabase.getPriceHistory q limit st' = Supabase.getPriceHistory q limit st).
Proof.
  intros Hr Hacc Hold st'.
  destruct (remote_save_rows now t p st Hr Hacc) as (row & Hsave & Hpool & Hrest).
  assert (Hreach : Supabase.reachable st' = true) by (subst st'; by rewrite Hsave).
  assert (Hrows : Supabase.token_prices st' = Supabase.token_prices st ++ [row])
    by (subst st'; by rewrite Hsave).
  split; [|split; [eauto|]].
  - intros limit Hlimit.
    destruct (remote_history_facts (Payload.poolAddress t) limit st')
      as (Hsorted & Hlen & _ & Hfrom & Hnewest).
    specialize (Hlen Hreach). specialize (Hnewest Hreach).
    assert (Hin : row ∈ Supabase.token_prices st') by (rewrite Hrows; set_solver).
    assert (Hrow_rows : row ∈ Supabase.rows_of (Payload.poolAddress t) st')
      by (by apply elem_of_rows_of).
    destruct (Supabase.getPriceHistory (Payload.poolAddress t) limit st') as [|q h] eqn:Hh.
    { exfalso. simpl in Hlen.
      destruct (Supabase.rows_of (Payload.poolAddress t) st'); [by apply elem_of_nil in Hrow_rows|].
      simpl in Hlen. lia. }
    simpl. f_equal.
    destruct (Hfrom q) as (r & Hr_in & Hr_pool & ->); [set_solver|].
    rewrite Hrows in Hr_in. apply elem_of_app in Hr_in as [Hr_old|Hr_new].
    + exfalso. pose proof (Hold r Hr_old Hr_pool) as Hlt.
      destruct Hrest as (Hat & _).
      destruct (Hnewest row Hin Hpool) as [Hthere|Hleft].
      * apply elem_of_cons in Hthere as [Heq|Hthere].
        -- apply (f_equal Payload.h_updated_at) in Heq. simpl in Heq. lia.
        -- apply StronglySorted_cons in Hsorted as [Hall _].
           rewrite Forall_forall in Hall. specialize (Hall _ Hthere). simpl in Hall. lia.
      * specialize (Hleft (point_of_row r)). simpl in Hleft.
        assert (Supabase.updated_at row <= Supabase.updated_at r) by (apply Hleft; set_solver).
        lia.
    + apply list_elem_of_singleton in Hr_new. subst r.
      destruct Hrest as (Hat & Hprice).
      apply (f_equal Payload.price) in Hprice. simpl in Hprice.
      unfold point_of_row. by rewrite Hat, Hprice.
  - intros q limit Hne. unfold Supabase.getPriceHistory. rewrite Hreach, Hr. simpl.
    assert (Hsame : Supabase.rows_of q st' = Supabase.rows_of q st).
    { unfold Supabase.rows_of. rewrite Hrows, filter_app, filter_cons, filter_nil.
      rewrite decide_False by congruence. by rewrite app_nil_r. }
    by rewrite Hsame.
Qed.

Lemma remote_save_heads_history_witness :
  head (Supabase.getPriceHistory "P1" None remote_two_saves) =
    Some {| Payload.h_price := StoreSamples.number 3;
            Payload.h_updated_at := StoreSamples.t0 + 1000 |}.
Proof.
  pose (st := Supabase.saveTokenPrice StoreSamples.t0 StoreSamples.token_P1
                StoreSamples.price_1 StoreSamples.remote_up).
  assert (Hr : Supabase.reachable st = true) by reflexivity.
  assert (Hacc : table_accepts StoreSamples.token_P1 StoreSamples.price_2)
    by (repeat split; discriminate).
  assert (Hold : forall r, r ∈ Supabase.token_prices st ->
            Supabase.pool_address r = Payload.poolAddress StoreSamples.token_P1 ->
            Supabase.updated_at r < StoreSamples.t0 + 1000).
  { intros r Hin _. simpl in Hin. apply list_elem_of_singleton in Hin. subst r.
    vm_compute. reflexivity. }
  assert (Hlimit : 1 <= default 24 (@None Z)) by (vm_compute; discriminate).
  exact (proj1 (remote_save_heads_history (StoreSamples.t0 + 1000) StoreSamples.token_P1
                  StoreSamples.price_2 st Hr Hacc Hold) None Hlimit).
Defined.

Lemma ensureInitialized_tables st :
  Supabase.reachable (Supabase.ensureInitialized st) = Supabase.reachable st /\
  Supabase.bot_config (Supabase.ensureInitialized st) = Supabase.bot_config st /\
  Supabase.token_prices (Supabase.ensureInitialized st) = Supabase.token_prices st.
Proof.
  unfold Supabase.ensureInitialized.
  by destruct (Supabase.available st); destruct (Supabase.initialized st).
Qed.

Lemma remote_getConfig_row k st :
  snd (Supabase.getConfig k st) =
    (if Supabase.reachable st then Supabase.bot_config st !! k else None) /\
  fst (Supabase.getConfig k st) = Supabase.ensureInitialized st.
Proof.
  unfold Supabase.getConfig.
  destruct (ensureInitialized_tables st) as (Hr & Hc & _). rewrite Hr, Hc.
  by destruct (Supabase.reachable st).
Qed.

Lemma remote_updateConfig_table now k v st :
  snd (Supabase.updateConfig now k v st) = Supabase.reachable st && negb (Js.nullish v) /\
  Supabase.reachable (fst (Supabase.updateConfig now k v st)) = Supabase.reachable st /\
  Supabase.token_prices (fst (Supabase.updateConfig now k v st)) = Supabase.token_prices st /\
  Supabase.bot_config (fst (Supabase.updateConfig now k v st)) =
    (if Supabase.reachable st && negb (Js.nullish v)
     then <[k := {| Supabase.value := v; Supabase.c_updated_at := now |}]> (Supabase.bot_config st)
     else Supabase.bot_config st).
Proof.
  unfold Supabase.updateConfig.
  destruct (ensureInitialized_tables st) as (Hr & Hc & Ht). rewrite Hr.
  destruct (Supabase.reachable st) eqn:E; destruct v; simpl; rewrite ?Hr, ?Hc, ?Ht, ?E; done.
Qed.

(** X25.  The remote configuration table: a value other than [null] and
    [undefined] written while the store answers is the row read back for
    the key, with the instant of the write; the rows of other keys are not
    touched; [null] and [undefined] are refused (the conversion to text
    throws) and a write that does not get through is reported [false], both
    leaving the table as it was.  Neither call touches the price rows. *)
Theorem remote_config_round_trip (now : Z) (k : string) (v : Js.Val) (st : Supabase.State) :
  let st' := fst (Supabase.updateConfig now k v st) in
  let ok := snd (Supabase.updateConfig now k v st) in
  ok = Supabase.reachable st && negb (Js.nullish v) /\
  snd (Supabase.getConfig k st') =
    (if ok then Some {| Supabase.value := v; Supabase.c_updated_at := now |}
     else snd (Supabase.getConfig k st)) /\
  (forall k', k' <> k -> snd (Supabase.getConfig k' st') = snd (Supabase.getConfig k' st)) /\
  (ok = false -> Supabase.bot_config st' = Supabase.bot_config st) /\
  Supabase.token_prices st' = Supabase.token_prices st /\
  Supabase.token_prices (fst (Supabase.getConfig k st')) = Supabase.token_prices st /\
  Supabase.bot_config (fst (Supabase.getConfig k st')) = Supabase.bot_config st'.
Proof.
  cbv zeta.
  destruct (remote_updateConfig_table now k v st) as (Hok & Hr & Ht & Hc).
  destruct (ensureInitialized_tables (fst (Supabase.updateConfig now k v st)))
    as (_ & Hc2 & Ht2).
  rewrite Hok. split; [done|].
  split; [|split; [|split; [|split; [exact Ht|split]]]].
  - rewrite (proj1 (remote_getConfig_row k _)), (proj1 (remote_getConfig_row k st)).
    rewrite Hr, Hc.
    destruct (Supabase.reachable st); simpl; [|done].
    destruct (Js.nullish v); simpl; [done|]. by rewrite lookup_insert_eq.
  - intros k' Hne.
    rewrite (proj1 (remote_getConfig_row k' _)), (proj1 (remote_getConfig_row k' st)).
    rewrite Hr, Hc.
    destruct (Supabase.reachable st); simpl; [|done].
    destruct (Js.nullish v); simpl; [done|]. by rewrite lookup_insert_ne.
  - intros Hno. rewrite Hc. by rewrite Hno.
  - rewrite (proj2 (remote_getConfig_row k _)). by rewrite Ht2.
  - rewrite (proj2 (remote_getConfig_row k _)). by rewrite Hc2.
Qed.

End RemoteRows.

(** * The bot's use of the series and of the token list *)

Section History.

Import StoreSpec.

Lemma find_at_least_cons ago now x h :
  Bot.find_at_least ago now (x :: h) =
    if decide (Payload.h_updated_at x <= now - ago) then Some x
    else Bot.find_at_least ago now h.
Proof.
  unfold Bot.find_at_least. simpl.
  destruct (decide (Payload.h_updated_at x <= now - ago)); [done|].
  by destruct (list_find _ h) as [[]|].
Qed.

Lemma find_at_least_newest ago now h :
  newest_first h ->
  match Bot.find_at_least ago now h with
  | Some p =>
      p ∈ h /\ Payload.h_updated_at p <= now - ago /\
      (forall q, q ∈ h -> Payload.h_updated_at q <= now - ago ->
                 Payload.h_updated_at q <= Payload.h_updated_at p)
  | None => forall q, q ∈ h -> now - ago < Payload.h_updated_at q
  end.
Proof.
  induction 1 as [|x h Hs IH Hall].
  - intros q Hq. by apply elem_of_nil in Hq.
  - rewrite find_at_least_cons.
    destruct (decide (Payload.h_updated_at x <= now - ago)) as [Hx|Hx].
    + split; [set_solver|]. split; [done|]. intros q Hq _.
      apply elem_of_cons in Hq as [->|Hq]; [lia|].
      rewrite Forall_forall in Hall. by apply Hall.
    + destruct (Bot.find_at_least ago now h) as [p|].
      * destruct IH as (Hin & Hp & Hmax). split; [set_solver|]. split; [done|].
        intros q Hq Hold. apply elem_of_cons in Hq as [->|Hq]; [lia|]. by apply Hmax.
      * intros q Hq. apply elem_of_cons in Hq as [->|Hq]; [lia|]. by apply IH.
Qed.

(** X26.  On a series that is newest-first, the reference point the
    [/history] command looks up for a span is the newest point at least
    that old, and there is none exactly when every point is younger; the
    point shown as current is the newest of all; and the reference for a
    longer span is never newer than the one for a shorter span. *)
Theorem history_reference_points (now : Z) (h : list Payload.HistoryPoint) :
  newest_first h ->
  (forall ago,
     match Bot.find_at_least ago now h with
     | Some p =>
         p ∈ h /\ Payload.h_updated_at p <= now - ago /\
         (forall q, q ∈ h -> Payload.h_updated_at q <= now - ago ->
                    Payload.h_updated_at q <= Payload.h_updated_at p)
     | None => forall q, q ∈ h -> now - ago < Payload.h_updated_at q
     end) /\
  (forall c, Bot.current_point h = Some c ->
     forall q, q ∈ h -> Payload.h_updated_at q <= Payload.h_updated_at c) /\
  (forall shorter longer p2,
     shorter <= longer ->
     Bot.find_at_least longer now h = Some p2 ->
     exists p1, Bot.find_at_least shorter now h = Some p1 /\
                Payload.h_updated_at p2 <= Payload.h_updated_at p1).
Proof.
  intros Hs. split; [|split].
  - intros ago. by apply find_at_least_newest.
  - intros c Hc q Hq. destruct h as [|x h]; [done|]. simpl in Hc. injection Hc as ->.
    apply StronglySorted_cons in Hs as [Hall _].
    apply elem_of_cons in Hq as [->|Hq]; [lia|].
    rewrite Forall_forall in Hall. by apply Hall.
  - intros shorter longer p2 Hle H2.
    pose proof (find_at_least_newest longer now h Hs) as Hl. rewrite H2 in Hl.
    destruct Hl as (Hin2 & Hold2 & _).
    pose proof (find_at_least_newest shorter now h Hs) as Hsh.
    destruct (Bot.find_at_least shorter now h) as [p1|].
    + destruct Hsh as (_ & _ & Hmax). exists p1. split; [done|]. apply Hmax; [done|lia].
    + specialize (Hsh p2 Hin2). lia.
Qed.

Lemma history_reference_points_witness :
  match Bot.find_at_least 3600000 StoreSamples.t0 BotSamples.three_points with
  | Some p =>
      p ∈ BotSamples.three_points /\
      Payload.h_updated_at p <= StoreSamples.t0 - 3600000 /\
      (forall q, q ∈ BotSamples.three_points ->
                 Payload.h_updated_at q <= StoreSamples.t0 - 3600000 ->
                 Payload.h_updated_at q <= Payload.h_updated_at p)
  | None => forall q, q ∈ BotSamples.three_points ->
                      StoreSamples.t0 - 3600000 < Payload.h_updated_at q
  end.
Proof.
  assert (Hs : newest_first BotSamples.three_points).
  { unfold newest_first, BotSamples.three_points, StoreSamples.t0.
    repeat apply SSorted_cons; try apply SSorted_nil;
      repeat apply Forall_cons_2; try apply Forall_nil_2; simpl; lia. }
  exact (proj1 (history_reference_points StoreSamples.t0 BotSamples.three_points Hs) 3600000).
Defined.

End History.

Section Pages.

Context {A : Type}.

Lemma slice_window (start : Z) (l : list A) :
  0 <= start ->
  Bot.slice start (start + Bot.TOKENS_PER_PAGE) l = take 5 (drop (Z.to_nat start) l).
Proof.
  intros Hstart. unfold Bot.slice, Bot.TOKENS_PER_PAGE.
  destruct (Z.ltb_spec start 0) as [?|_]; [lia|].
  destruct (Z.ltb_spec (start + 5) 0) as [?|_]; [lia|].
  destruct (decide (start <= Z.of_nat (length l))) as [Hin|Hout].
  - rewrite (Z.min_l start) by lia.
    destruct (decide (start + 5 <= Z.of_nat (length l))) as [Hfull|Hpart].
    + rewrite Z.min_l by lia. by replace (Z.to_nat (start + 5 - start)) with 5%nat by lia.
    + rewrite Z.min_r by lia.
      rewrite !take_ge; [done| |]; rewrite length_drop; lia.
  - rewrite !Z.min_r by lia. rewrite Z.sub_diag. simpl.
    rewrite drop_ge by lia. rewrite drop_ge by lia. done.
Qed.

Lemma totalPages_bounds (n : nat) :
  5 * (Bot.totalPages n - 1) < Z.of_nat n <= 5 * Bot.totalPages n.
Proof.
  unfold Bot.totalPages, Bot.TOKENS_PER_PAGE.
  pose proof (Z.div_mod (Z.of_nat n + 5 - 1) 5) as Hd.
  pose proof (Z.mod_pos_bound (Z.of_nat n + 5 - 1) 5). lia.
Qed.

Lemma page_tokens_window (requested : option N) (tokens : list A) :
  tokens <> [] ->
  let page := Bot.page_number requested (length tokens) in
  1 <= page <= Bot.totalPages (length tokens) /\
  Bot.page_tokens requested tokens = take 5 (drop (5 * Z.to_nat (page - 1)) tokens).
Proof.
  intros Hne page.
  pose proof (totalPages_bounds (length tokens)) as Hb.
  assert (Hlen : (0 < length tokens)%nat) by (destruct tokens; [done|simpl; lia]).
  assert (Hpage : 1 <= page <= Bot.totalPages (length tokens)).
  { subst page. unfold Bot.page_number. lia. }
  split; [exact Hpage|].
  unfold Bot.page_tokens. fold page.
  rewrite slice_window by (unfold Bot.TOKENS_PER_PAGE; lia).
  do 2 f_equal. unfold Bot.TOKENS_PER_PAGE. lia.
Qed.

Lemma chunks_concat (k : nat) : forall l : list A,
  (length l <= 5 * k)%nat ->
  concat ((fun i => take 5 (drop (5 * i) l)) <$> seq 0 k) = l.
Proof.
  induction k as [|k IH]; intros l Hlen.
  - destruct l; [done|simpl in Hlen; lia].
  - change (seq 0 (S k)) with (0%nat :: seq 1 k). rewrite <- fmap_S_seq.
    rewrite fmap_cons, <- list_fmap_compose.
    change (concat (?x :: ?xs)) with (x ++ concat xs).
    transitivity (take 5 l ++ drop 5 l); [|apply take_drop].
    f_equal.
    transitivity (concat ((fun i => take 5 (drop (5 * i) (drop 5 l))) <$> seq 0 k)).
    + f_equal. apply list_fmap_ext. intros j i _. unfold compose.
      rewrite drop_drop. do 2 f_equal. lia.
    + apply IH. rewrite length_drop. lia.
Qed.

(** X27.  The pages of the [/tokens] command: for a list that is not empty
    the page shown is between 1 and the number of pages whatever number was
    asked for (none asks for the first, a number beyond the last for the
    last), it holds between one and five tokens, and the pages from the
    first to the last, put one after the other, are the list: every token
    is on exactly one page, in order.  For the empty list the page number
    is 0 and nothing is listed. *)
Theorem tokens_pages_partition (tokens : list A) :
  (tokens <> [] ->
   forall requested,
     let page := Bot.page_number requested (length tokens) in
     1 <= page <= Bot.totalPages (length tokens) /\
     (page = 1 <-> (default 1%N requested <= 1)%N \/ Bot.totalPages (length tokens) = 1) /\
     (Z.of_N (default 1%N requested) >= Bot.totalPages (length tokens) ->
      page = Bot.totalPages (length tokens)) /\
     (1 <= length (Bot.page_tokens requested tokens) <= 5)%nat) /\
  concat ((fun i : nat => Bot.page_tokens (Some (N.of_nat (S i))) tokens)
            <$> seq 0 (Z.to_nat (Bot.totalPages (length tokens)))) = tokens /\
  (tokens = [] ->
   forall requested,
     Bot.page_number requested (length tokens) = 0 /\
     Bot.page_tokens requested tokens = []).
Proof.
  pose proof (totalPages_bounds (length tokens)) as Hb.
  split; [|split].
  - intros Hne requested page.
    destruct (page_tokens_window requested tokens Hne) as [Hpage Hwin].
    fold page in Hpage, Hwin.
    assert (Hlen : (0 < length tokens)%nat) by (destruct tokens; [done|simpl; lia]).
    split; [exact Hpage|]. split; [|split].
    + subst page. unfold Bot.page_number in *. lia.
    + subst page. unfold Bot.page_number in *. lia.
    + rewrite Hwin, length_take, length_drop. lia.
  - destruct tokens as [|t tokens'] eqn:Ht; [done|]. rewrite <- Ht in *.
    assert (Hne : tokens <> []) by (by rewrite Ht).
    transitivity (concat ((fun i => take 5 (drop (5 * i) tokens))
                            <$> seq 0 (Z.to_nat (Bot.totalPages (length tokens)))));
      [|apply chunks_concat; lia].
    f_equal. apply list_fmap_ext. intros j i Hi.
    apply lookup_seq in Hi as [-> Hi]. simpl Nat.add.
    destruct (page_tokens_window (Some (N.of_nat (S j))) tokens Hne) as [_ Hwin].
    rewrite Hwin. do 2 f_equal.
    unfold Bot.page_number. simpl default. lia.
  - intros -> requested.
    assert (Hpage : Bot.page_number requested (length (@nil A)) = 0).
    { unfold Bot.page_number. change (Bot.totalPages (length (@nil A))) with 0. lia. }
    split; [exact Hpage|].
    unfold Bot.page_tokens. rewrite Hpage. reflexivity.
Qed.

End Pages.
